(** * K800 CAN bus utility: a shallow embedding of [k800_can_utility.py]

    The script talks to three outside parties: the serial-port enumeration
    and the management port (pyserial), the CAN bus (python-can) and the
    clock.  Each call to one of them is an [Op]; the answers come from a
    [World], which also decides which call raises.  The script's own code
    is written in a small state-and-exception monad over that world, and
    every call it makes is recorded in a trace.

    Python [str] values are represented by their UTF-8 text, one [ascii]
    per byte, so that [str.encode()] is [list_byte_of_string]; Python
    [int] is [Z]; durations are in milliseconds. *)

From Stdlib Require Import ZArith List Bool Lia Arith.
From Stdlib.Strings Require Import String Ascii Byte.
From Stdlib Require Import DecimalString.
Import ListNotations.

Local Open Scope string_scope.
Local Open Scope Z_scope.

(** ** Text helpers *)

(** The two-character line terminator written as [\r\n] in the source. *)
Definition CRLF : string :=
  String (ascii_of_nat 13) (String (ascii_of_nat 10) EmptyString).

(** [str(n)] for an [int]. *)
Definition str_int (n : Z) : string :=
  NilZero.string_of_int (Z.to_int n).

(** [str(b)] for a [bool]. *)
Definition str_bool (b : bool) : string :=
  if b then "True" else "False".

Definition lower_ascii (c : ascii) : ascii :=
  let n := nat_of_ascii c in
  if andb (Nat.leb 65 n) (Nat.leb n 90) then ascii_of_nat (n + 32) else c.

(** [s.lower()], on the ASCII letters. *)
Fixpoint lower (s : string) : string :=
  match s with
  | EmptyString => EmptyString
  | String c t => String (lower_ascii c) (lower t)
  end.

(** [s.encode()] and [s.encode('utf-8')]. *)
Definition encode (s : string) : list byte := list_byte_of_string s.

(** [needle in hay] for two strings. *)
Fixpoint contains (needle hay : string) : bool :=
  orb (String.prefix needle hay)
      (match hay with
       | EmptyString => false
       | String _ t => contains needle t
       end).

(** A byte string is ASCII when every byte is below 128. *)
Definition is_ascii (bs : list byte) : bool :=
  forallb (fun b => N.ltb (Byte.to_N b) 128) bs.

(** ** The oscillating counter (globals [number], [is_increment]) *)

Record Counter := mkCounter { number : Z; is_increment : bool }.

(** The branch of [inc_dec_data_string] that updates [is_increment]. *)
Definition turn (low high : Z) (c : Counter) : bool :=
  if number c =? low then true
  else if number c =? high then false
  else is_increment c.

(** One call of [inc_dec_data_string(low, high)] on the two globals:
    the returned text and the globals afterwards. *)
Definition inc_dec (low high : Z) (c : Counter) : string * Counter :=
  let inc := turn low high c in
  let n := number c + (if inc then 1 else -1) in
  ("K800_" ++ str_int n, mkCounter n inc).

(** The defaults [low=0, high=9]. *)
Definition inc_dec_default : Counter -> string * Counter := inc_dec 0 9.

(** The globals as [main] sets them before the loop. *)
Definition counter0 : Counter := mkCounter 0 true.

(** The globals after [n] calls. *)
Fixpoint after_calls (n : nat) (c : Counter) : Counter :=
  match n with
  | O => c
  | S k => snd (inc_dec_default (after_calls k c))
  end.

(** What the [n]-th call returns (calls counted from 1). *)
Definition nth_call (n : nat) (c : Counter) : string :=
  fst (inc_dec_default (after_calls (Nat.pred n) c)).

(** The triangle wave over [0,9] with period 18: 0,1,...,9,8,...,1,0,1,... *)
Definition triangle (n : nat) : Z :=
  let r := Z.of_nat (n mod 18) in
  if r <=? 9 then r else 18 - r.

(** ** Values exchanged with the libraries *)

(** The exceptions the script distinguishes: [KeyboardInterrupt] and
    [SystemExit] are not subclasses of [Exception]; everything else the
    libraries raise is an [Exception] carrying its message. *)
Inductive exn :=
| KeyboardInterrupt
| Exception (msg : string)
| SystemExit (code : Z).

(** The fields of pyserial's [ListPortInfo] that the script reads;
    [location] is [None] for a port that has none. *)
Record ListPortInfo := mkPort {
  device : string;
  description : string;
  hwid : string;
  location : option string
}.

(** [str(port)]. *)
Definition str_port (p : ListPortInfo) : string :=
  device p ++ " - " ++ description p.

(** A python-can [Message]; the timestamp is in microseconds. *)
Record Message := mkMessage {
  timestamp : Z;
  arbitration_id : Z;
  is_extended_id : bool;
  data : list byte
}.

(** The value of [is_led]: the string given on the command line, or the
    boolean default of [set_led_status]. *)
Inductive Flag :=
| FlagBool (b : bool)
| FlagStr (s : string).

(** An open [serial.Serial] and an open [can.Bus]. *)
Inductive Serial := SerialOn (path : string).
Inductive Bus := BusOn (channel : string) (bitrate : Z).

(** ** Calls, answers and the trace *)

Inductive Op :=
| Comports
| SerialOpen (path : string)
| PortWrite (payload : list byte)
| PortInWaiting
| PortRead (size : N)
| PortResetInput
| PortResetOutput
| PortClose
| Sleep (ms : Z)
| Now
| BusOpen (interface channel : string) (bitrate : Z) (receive_own_messages : bool)
| BusSend (m : Message) (timeout_ms : Z)
| BusRecv
| BusShutdown.

Inductive Answer :=
| Raised (e : exn)
| Done
| Count (n : N)
| Bytes (bs : list byte)
| Frame (m : Message)
| Ports (ps : list ListPortInfo)
| Stamp (t : Z).

(** What [print] is given. *)
Inductive Printed :=
| Text (s : string)
| Sent (m : Message)
| Received (m : Message).

Inductive Event :=
| Call (o : Op) (a : Answer)
| Output (p : Printed).

(** The outside world.  Calls are numbered in the order the script makes
    them; [fault k] is the exception the [k]-th call raises, if any, and
    the other fields are what the [k]-th call returns when it is of the
    matching kind.  [port_lt] is [ListPortInfo.__lt__]. *)
Record World := mkWorld {
  fault : nat -> option exn;
  port_lt : ListPortInfo -> ListPortInfo -> bool;
  attached : nat -> list ListPortInfo;
  buffered : nat -> N;
  incoming : nat -> N -> list byte;
  delivered : nat -> Message;
  wall_clock : nat -> Z
}.

(** The script's state: how many calls it has made, the two globals and
    the trace so far. *)
Record State := mkState {
  tick : nat;
  globals : Counter;
  trace : list Event
}.

(** A run ends with a value, with an exception, or is still inside
    [while True] when the fuel runs out. *)
Inductive Res (A : Type) :=
| Val (a : A)
| Exc (e : exn)
| Running.
Arguments Val {A} a.
Arguments Exc {A} e.
Arguments Running {A}.

Definition M (A : Type) : Type := State -> Res A * State.

Definition ret {A} (a : A) : M A := fun s => (Val a, s).

Definition bind {A B} (m : M A) (k : A -> M B) : M B :=
  fun s =>
    match m s with
    | (Val a, s1) => k a s1
    | (Exc e, s1) => (Exc e, s1)
    | (Running, s1) => (Running, s1)
    end.

Definition raise {A} (e : exn) : M A := fun s => (Exc e, s).

Notation "x <- c ;; k" := (bind c (fun x => k))
  (at level 61, c at next level, right associativity).
Notation "c ;; k" := (bind c (fun _ => k))
  (at level 61, right associativity).

Definition record (ev : Event) (s : State) : State :=
  mkState (tick s) (globals s) (trace s ++ [ev]).

Definition advance (s : State) : State :=
  mkState (S (tick s)) (globals s) (trace s).

(** [print(...)]: recorded, never raises. *)
Definition print (p : Printed) : M unit :=
  fun s => (Val tt, record (Output p) s).

(** ** UTF-8 decoding *)

Local Open Scope N_scope.

Definition between (lo hi b : N) : bool := (lo <=? b) && (b <=? hi).

Definition second_of3 (b0 b1 : N) : bool :=
  if b0 =? 224 then between 160 191 b1
  else if b0 =? 237 then between 128 159 b1
  else between 128 191 b1.

Definition second_of4 (b0 b1 : N) : bool :=
  if b0 =? 240 then between 144 191 b1
  else if b0 =? 244 then between 128 143 b1
  else between 128 191 b1.

(** Well-formed UTF-8, as the strict decoder accepts it. *)
Fixpoint utf8_valid (bs : list N) : bool :=
  match bs with
  | [] => true
  | b0 :: t0 =>
    if b0 <? 128 then utf8_valid t0
    else
      match t0 with
      | [] => false
      | b1 :: t1 =>
        if between 194 223 b0 then between 128 191 b1 && utf8_valid t1
        else
          match t1 with
          | [] => false
          | b2 :: t2 =>
            if between 224 239 b0
            then second_of3 b0 b1 && between 128 191 b2 && utf8_valid t2
            else
              match t2 with
              | [] => false
              | b3 :: t3 =>
                between 240 244 b0 && second_of4 b0 b1
                && between 128 191 b2 && between 128 191 b3 && utf8_valid t3
              end
          end
      end
  end.

Local Close Scope N_scope.

(** [bs.decode()]: the text, or [UnicodeDecodeError]. *)
Definition decode (bs : list byte) : exn + string :=
  if utf8_valid (map Byte.to_N bs) then inr (string_of_list_byte bs)
  else inl (Exception "UnicodeDecodeError").

(** ** The script *)

Definition LF : string := String (ascii_of_nat 10) EmptyString.

Definition MCU_VID_PID : string := "353F:A101".
Definition DEFAULT_MODE : string := "s".
Definition DEFAULT_BITRATE : Z := 1000.
Definition valid_bit_rates : list Z := [10; 20; 50; 100; 125; 250; 500; 750; 1000].
Definition LED_CHECK : string := "off".
Definition LED_COUNT : nat := 4.

(** [x in xs] for a list of [int]. *)
Definition in_list (x : Z) (xs : list Z) : bool := existsb (Z.eqb x) xs.

(** Truth value of a string, and of a value that is a string or [None]. *)
Definition truthy (s : string) : bool :=
  match s with EmptyString => false | _ => true end.

Definition truthy_opt (o : option string) : bool :=
  match o with None => false | Some s => truthy s end.

(** Truth value of [port]: a [Serial] object, or [None]. *)
Definition truthy_port (port : option Serial) : bool :=
  match port with None => false | Some _ => true end.

(** [is_led == 'off']: a boolean never equals a string. *)
Definition flag_is_off (f : Flag) : bool :=
  match f with
  | FlagBool _ => false
  | FlagStr s => String.eqb s "off"
  end.

(** [for x in xs: body(x)]. *)
Fixpoint for_each {A} (xs : list A) (body : A -> M unit) : M unit :=
  match xs with
  | [] => ret tt
  | x :: t => body x ;; for_each t body
  end.

(** [while True: body], cut off after [fuel] iterations. *)
Fixpoint forever (fuel : nat) (body : M unit) : M unit :=
  match fuel with
  | O => fun s => (Running, s)
  | S f => body ;; forever f body
  end.

(** [try: body except ...: handler]; [handler e = None] when no clause
    matches [e]. *)
Definition try_except {A} (body : M A) (handler : exn -> option (M A)) : M A :=
  fun s =>
    match body s with
    | (Exc e, s1) =>
        match handler e with
        | Some h => h s1
        | None => (Exc e, s1)
        end
    | other => other
    end.

(** [try: body finally: fin]: [fin] runs however [body] ended, and an
    exception of [fin] replaces the outcome of [body]. *)
Definition try_finally {A} (body : M A) (fin : M unit) : M A :=
  fun s =>
    match body s with
    | (Running, s1) => (Running, s1)
    | (r, s1) =>
        match fin s1 with
        | (Val _, s2) => (r, s2)
        | (Exc e, s2) => (Exc e, s2)
        | (Running, s2) => (Running, s2)
        end
    end.

(** Stable insertion sort with [<] only, the order [sorted] produces. *)
Fixpoint insert_sorted {A} (lt : A -> A -> bool) (x : A) (l : list A) : list A :=
  match l with
  | [] => [x]
  | y :: t => if lt x y then x :: y :: t else y :: insert_sorted lt x t
  end.

Definition sorted {A} (lt : A -> A -> bool) (l : list A) : list A :=
  fold_left (fun acc x => insert_sorted lt x acc) l [].

Section Script.

Variable w : World.

(** A call to a library: the world says whether it raises, and what it
    returns otherwise; either way the call is recorded and counted. *)
Definition call {A} (o : Op) (value : nat -> A) (show : A -> Answer) : M A :=
  fun s =>
    match fault w (tick s) with
    | Some e => (Exc e, advance (record (Call o (Raised e)) s))
    | None =>
        let a := value (tick s) in
        (Val a, advance (record (Call o (show a)) s))
    end.

Definition procedure (o : Op) : M unit :=
  call o (fun _ => tt) (fun _ => Done).

Definition comports : M (list ListPortInfo) := call Comports (attached w) Ports.
Definition serial_Serial (path : string) : M Serial :=
  call (SerialOpen path) (fun _ => SerialOn path) (fun _ => Done).
Definition port_write (payload : list byte) : M unit := procedure (PortWrite payload).
Definition port_inWaiting : M N := call PortInWaiting (buffered w) Count.
Definition port_read (size : N) : M (list byte) :=
  call (PortRead size) (fun k => incoming w k size) Bytes.
Definition port_reset_input_buffer : M unit := procedure PortResetInput.
Definition port_reset_output_buffer : M unit := procedure PortResetOutput.
Definition port_close : M unit := procedure PortClose.
Definition time_sleep (ms : Z) : M unit := procedure (Sleep ms).
Definition datetime_now_timestamp : M Z := call Now (wall_clock w) Stamp.
Definition can_Bus (interface channel : string) (bitrate : Z) (own : bool) : M Bus :=
  call (BusOpen interface channel bitrate own) (fun _ => BusOn channel bitrate)
       (fun _ => Done).
Definition bus_send (m : Message) (timeout_ms : Z) : M unit :=
  procedure (BusSend m timeout_ms).
Definition bus_recv : M Message := call BusRecv (delivered w) Frame.
Definition bus_shutdown : M unit := procedure BusShutdown.

(** [inc_dec_data_string()] on the globals. *)
Definition inc_dec_data_string : M string :=
  fun s =>
    let (text, c) := inc_dec_default (globals s) in
    (Val text, mkState (tick s) c (trace s)).

(** The assignments [number = 0; is_increment = True]. *)
Definition reset_globals : M unit :=
  fun s => (Val tt, mkState (tick s) counter0 (trace s)).

Definition led_command (i : nat) (status : bool) : string :=
  "dio set LED0 " ++ str_int (Z.of_nat i) ++ " " ++ lower (str_bool status) ++ CRLF.

Definition set_led_status (port : option Serial) (is_led : Flag) (status : bool)
  : M unit :=
  if flag_is_off is_led || negb (truthy_port port) then ret tt
  else
    for_each (seq 0 LED_COUNT) (fun i =>
      port_write (encode (led_command i status)) ;;
      time_sleep 100).

Definition mode_command (interface mode : string) : string :=
  "set can-mode " ++ interface ++ " " ++ mode ++ CRLF.

Definition baud_command (interface baud : string) : string :=
  "set can-baudrate " ++ interface ++ " " ++ baud ++ CRLF.

Definition configure_can (interface mode baud : string) : M unit :=
  port_write (encode (mode_command interface mode)) ;;
  time_sleep 100 ;;
  port_write (encode (baud_command interface baud)) ;;
  time_sleep 100 ;;
  n <- port_inWaiting ;;
  bs <- port_read n ;;
  match decode bs with
  | inl e => raise e
  | inr text => print (Text text)
  end.

(** The body of the [for] loop of [get_device_port]: [Some d] when it
    returns [d], [None] when the loop goes on. *)
Fixpoint scan_ports (dev_id : string) (location_filter : option string)
  (ports : list ListPortInfo) : M (option string) :=
  match ports with
  | [] => ret None
  | port :: rest =>
    if contains dev_id (hwid port) then
      match location_filter with
      | Some loc =>
        if truthy loc then
          match location port with
          | None => raise (Exception "TypeError")
          | Some ploc =>
            if contains loc ploc then
              print (Text ("Port: " ++ str_port port ++ LF
                           ++ "Port Location: " ++ ploc ++ LF
                           ++ "Hardware ID: " ++ hwid port ++ LF
                           ++ "Device: " ++ device port)) ;;
              print (Text "***************") ;;
              ret (Some (device port))
            else scan_ports dev_id location_filter rest
          end
        else scan_ports dev_id location_filter rest
      | None => scan_ports dev_id location_filter rest
      end
    else scan_ports dev_id location_filter rest
  end.

Definition get_device_port (dev_id : string) (location_filter : option string)
  : M (option string) :=
  all_ports <- comports ;;
  scan_ports dev_id location_filter (sorted (port_lt w) all_ports).

(** [mode == 's']; [mode] is [None] when [-m] was not given. *)
Definition is_send (mode : option string) : bool :=
  match mode with Some m => String.eqb m "s" | None => false end.

(** One pass through the body of [while True]. *)
Definition loop_body (mode : option string) : M unit :=
  if is_send mode then
    text <- inc_dec_data_string ;;
    msg_time <- datetime_now_timestamp ;;
    let message := mkMessage msg_time 0x123 true (encode text) in
    bus_send message 200 ;;
    print (Sent message) ;;
    time_sleep 100
  else
    received_msg <- bus_recv ;;
    print (Received received_msg).

Definition session_loop (fuel : nat) (mode : option string) : M unit :=
  forever fuel (loop_body mode).

(** The two [except] clauses. *)
Definition on_exception (e : exn) : option (M unit) :=
  match e with
  | KeyboardInterrupt =>
      Some (print (Text (LF ++ "Operation terminated by user.")))
  | Exception msg => Some (print (Text ("An error occurred: " ++ msg)))
  | SystemExit _ => None
  end.

(** The [finally] block. *)
Definition teardown (port : Serial) (is_led : Flag) : M unit :=
  time_sleep 1000 ;;
  port_reset_input_buffer ;;
  port_reset_output_buffer ;;
  set_led_status (Some port) is_led false ;;
  bus_shutdown ;;
  port_close.

(** The [try] statement of [main]. *)
Definition run_session (fuel : nat) (mode : option string) (port : Serial)
  (is_led : Flag) : M unit :=
  try_finally (try_except (session_loop fuel mode) on_exception)
              (teardown port is_led).

(** [main] once [mode], [bit_rate] and [is_led] are known, from the
    command line or from the defaults. *)
Definition main (fuel : nat) (mode : option string) (bit_rate : Z)
  (is_led : string) : M unit :=
  if negb (in_list bit_rate valid_bit_rates) then
    print (Text "Error: Invalid bit_rate. Please enter a value between 1 and 1000 kbps.") ;;
    raise (SystemExit 1)
  else
    mgmt_port <- get_device_port MCU_VID_PID (Some ".0") ;;
    vcan_port <- get_device_port MCU_VID_PID (Some ".2") ;;
    match mgmt_port, vcan_port with
    | Some mgmt, Some vcan =>
      if negb (truthy mgmt) || negb (truthy vcan) then
        print (Text "Error: K800 MCU not found. Please check configurations and connections.") ;;
        raise (SystemExit 1)
      else
        port <- serial_Serial mgmt ;;
        port_write (encode CRLF) ;;
        time_sleep 100 ;;
        n <- port_inWaiting ;;
        _ <- port_read n ;;
        print (Text "Configuring CAN port...") ;;
        configure_can "VCAN0" "slcan" (str_int bit_rate) ;;
        set_led_status (Some port) (FlagStr is_led) true ;;
        _ <- can_Bus "slcan" vcan (bit_rate * 1000) false ;;
        print (Text ("Starting CAN bus "
                     ++ (if is_send mode then "transmission" else "reception")
                     ++ "..." ++ LF ++ "Ctrl+C to exit")) ;;
        reset_globals ;;
        run_session fuel mode port (FlagStr is_led)
    | _, _ =>
      print (Text "Error: K800 MCU not found. Please check configurations and connections.") ;;
      raise (SystemExit 1)
    end.

End Script.

(** The status the process exits with: [sys.exit(c)] gives [c], an
    uncaught exception 1, an uncaught interrupt the status of SIGINT. *)
Definition exit_status (r : Res unit) : option Z :=
  match r with
  | Val _ => Some 0
  | Exc (SystemExit c) => Some c
  | Exc (Exception _) => Some 1
  | Exc KeyboardInterrupt => Some 130
  | Running => None
  end.

(** The state in which the process starts: no call made, nothing
    recorded.  The globals are assigned by [main] before their first
    use, so their value here is never read. *)
Definition state0 : State := mkState 0 counter0 [].

(** [main] with [USE_ARGPARSE = False]: the three defaults. *)
Definition main_with_defaults (w : World) (fuel : nat) : M unit :=
  main w fuel (Some DEFAULT_MODE) DEFAULT_BITRATE LED_CHECK.

(** * Vocabulary of the statements *)

(** The shape of the globals after [n] calls: the value is on the wave,
    and the flag points up on the rising half and down on the falling
    half (at the two ends the next call overwrites it). *)
Definition on_wave (n : nat) (c : Counter) : Prop :=
  number c = triangle n
  /\ ((1 <= n mod 18 <= 8)%nat -> is_increment c = true)
  /\ ((10 <= n mod 18 <= 17)%nat -> is_increment c = false).

(** [s] after [k] more calls that recorded [evs]. *)
Definition extend (s : State) (k : nat) (evs : list Event) : State :=
  mkState (k + tick s) (globals s) (trace s ++ evs).

(** No call numbered [from], ..., [from + count - 1] raises. *)
Definition calm (w : World) (from count : nat) : Prop :=
  forall k : nat, (from <= k < from + count)%nat -> fault w k = None.

(** A K800 as the enumeration shows it: one USB device, three serial
    interfaces told apart by the end of their location. *)
Definition k800_port (path loc : string) : ListPortInfo :=
  mkPort path "K800 MCU" ("USB VID:PID=353F:A101 SER=0001 LOCATION=" ++ loc) (Some loc).

(** The enumeration lists the virtual CAN interface first. *)
Definition k800_ports : list ListPortInfo :=
  [ k800_port "/dev/ttyACM2" "1-4:1.2";
    k800_port "/dev/ttyACM0" "1-4:1.0" ].

(** A frame some other node puts on the bus. *)
Definition foreign_frame (k : nat) : Message :=
  mkMessage (Z.of_nat k) 0x7FF false [x20; x21].

(** A world with a K800 attached, in which [faults] says which calls
    raise; the ports are ordered by their path. *)
Definition world_with (faults : nat -> option exn) : World :=
  mkWorld faults
          (fun a b => String.ltb (device a) (device b))
          (fun _ => k800_ports)
          (fun _ => 2%N)
          (fun _ _ => [x6f; x6b])
          foreign_frame
          (fun k => Z.of_nat k).

(** The world in which no call raises. *)
Definition quiet_world : World := world_with (fun _ => None).

(** The calls [configure_can] makes when [n] bytes are waiting and the
    read gives [bs]. *)
Definition configure_calls (interface mode baud : string) (n : N) (bs : list byte)
  : list Event :=
  [ Call (PortWrite (encode ("set can-mode " ++ interface ++ " " ++ mode ++ CRLF))) Done;
    Call (Sleep 100) Done;
    Call (PortWrite (encode ("set can-baudrate " ++ interface ++ " " ++ baud ++ CRLF))) Done;
    Call (Sleep 100) Done;
    Call PortInWaiting (Count n);
    Call (PortRead n) (Bytes bs) ].

(** The eight calls of the LED loop. *)
Definition led_calls (status : bool) : list Event :=
  let word := if status then "true" else "false" in
  [ Call (PortWrite (encode ("dio set LED0 0 " ++ word ++ CRLF))) Done;
    Call (Sleep 100) Done;
    Call (PortWrite (encode ("dio set LED0 1 " ++ word ++ CRLF))) Done;
    Call (Sleep 100) Done;
    Call (PortWrite (encode ("dio set LED0 2 " ++ word ++ CRLF))) Done;
    Call (Sleep 100) Done;
    Call (PortWrite (encode ("dio set LED0 3 " ++ word ++ CRLF))) Done;
    Call (Sleep 100) Done ].

(** What the port locator is described to return when no filter is
    given: the path of the first port, in sorted order, whose hardware
    id contains the signature. *)
Definition first_with_signature (lt : ListPortInfo -> ListPortInfo -> bool)
  (dev_id : string) (ports : list ListPortInfo) : option string :=
  option_map device (find (fun p => contains dev_id (hwid p)) (sorted lt ports)).

(** The frames handed to [bus.send], in order. *)
Definition bus_sends (tr : list Event) : list Message :=
  flat_map (fun ev => match ev with Call (BusSend m _) _ => [m] | _ => [] end) tr.

(** Their payloads. *)
Definition sent_payloads (tr : list Event) : list (list byte) :=
  map data (bus_sends tr).

(** The frames [bus.recv] returned, in order. *)
Definition frames_delivered (tr : list Event) : list Message :=
  flat_map (fun ev => match ev with Call BusRecv (Frame m) => [m] | _ => [] end) tr.

(** The frames printed as received, in order. *)
Definition frames_logged (tr : list Event) : list Message :=
  flat_map (fun ev => match ev with Output (Received m) => [m] | _ => [] end) tr.

(** [m] keeps the state property [I], however it ends. *)
Definition preserves {A} (I : State -> Prop) (m : M A) : Prop :=
  forall s : State, I s -> I (snd (m s)).

(** Every event satisfies [P] and the globals satisfy [J]. *)
Definition Inv (P : Event -> Prop) (J : Counter -> Prop) (s : State) : Prop :=
  Forall P (trace s) /\ J (globals s).

(** The payload [K800_<d>] for a digit [d]. *)
Definition digit_payload (d : nat) : list byte :=
  encode ("K800_" ++ String (ascii_of_nat (48 + d)) EmptyString).

(** The frame format of the send loop. *)
Definition demo_frame (m : Message) : Prop :=
  arbitration_id m = 0x123
  /\ is_extended_id m = true
  /\ exists d : nat, (d <= 9)%nat /\ data m = digit_payload d.

(** An event is fine when the frame it sends, if any, is a demo frame. *)
Definition sends_demo_frame (ev : Event) : Prop :=
  match ev with
  | Call (BusSend m _) _ => demo_frame m
  | _ => True
  end.

(** The counter is within its bounds; no condition on the counter. *)
Definition in_range (c : Counter) : Prop := 0 <= number c <= 9.
Definition any_counter (c : Counter) : Prop := True.

(** The first frame [main] sends in [quiet_world] with the LED check
    off: its fifteenth call reads the clock. *)
Definition first_demo_frame : Message := mkMessage 14 0x123 true (encode "K800_1").

(** The events of one pass of the send loop at call number [k], for the
    text [text]. *)
Definition send_events (w : World) (k : nat) (text : string) : list Event :=
  let message := mkMessage (wall_clock w k) 0x123 true (encode text) in
  [ Call Now (Stamp (wall_clock w k));
    Call (BusSend message 200) Done;
    Output (Sent message);
    Call (Sleep 100) Done ].

(** The payload the send loop produces in its [i]-th pass (from 0). *)
Definition loop_payload (i : nat) : list byte :=
  encode ("K800_" ++ str_int (triangle (S i))).

(** The payload sequence as the description gives it, starting with
    [K800_0]. *)
Definition described_payload (i : nat) : list byte :=
  encode ("K800_" ++ str_int (triangle i)).

(** An event of the receive loop: a [bus.recv] call or the line printed
    for the frame it returned. *)
Definition receive_event (ev : Event) : Prop :=
  match ev with
  | Call BusRecv _ => True
  | Output (Received _) => True
  | _ => False
  end.

(** Nothing was sent, every frame delivered so far has been printed, in
    the same order, and nothing else happened. *)
Definition receive_only (s : State) : Prop :=
  bus_sends (trace s) = []
  /\ frames_logged (trace s) = frames_delivered (trace s)
  /\ Forall receive_event (trace s).

(** The calls of the [finally] block when none of them raises. *)
Definition teardown_events (is_led : Flag) : list Event :=
  [ Call (Sleep 1000) Done; Call PortResetInput Done; Call PortResetOutput Done ]
  ++ (if flag_is_off is_led then [] else led_calls false)
  ++ [ Call BusShutdown Done; Call PortClose Done ].

(** How many calls that is. *)
Definition teardown_count (is_led : Flag) : nat :=
  if flag_is_off is_led then 5 else 13.

(** What the [except] clauses print for [e]. *)
Definition handler_events (e : exn) : list Event :=
  match e with
  | KeyboardInterrupt => [Output (Text (LF ++ "Operation terminated by user."))]
  | Exception msg => [Output (Text ("An error occurred: " ++ msg))]
  | SystemExit _ => []
  end.

(** How the [try] statement ends after the loop raised [e] and the
    [finally] block completed: a caught exception is gone, any other is
    raised again. *)
Definition after_handler (e : exn) : Res unit :=
  match e with
  | KeyboardInterrupt => Val tt
  | Exception _ => Val tt
  | SystemExit c => Exc (SystemExit c)
  end.

(** Whether an event is a call of [bus.shutdown()], of [port.close()]. *)
Definition is_shutdown_call (ev : Event) : bool :=
  match ev with Call BusShutdown _ => true | _ => false end.

Definition is_close_call (ev : Event) : bool :=
  match ev with Call PortClose _ => true | _ => false end.

(** The bus fails after one frame, and the port with it. *)
Definition unplugged_world : World :=
  world_with (fun k =>
    if Nat.eqb k 1 then Some (Exception "device disconnected")
    else if Nat.eqb k 3 then Some (Exception "port is not open")
    else None).

(** The bus fails after one frame, the port keeps working. *)
Definition bus_error_world : World :=
  world_with (fun k =>
    if Nat.eqb k 1 then Some (Exception "device disconnected") else None).

(** ** Further vocabulary: the counter with any bounds *)

(** The globals after [n] calls of [inc_dec_data_string(low, high)]. *)
Fixpoint after_calls_with (low high : Z) (n : nat) (c : Counter) : Counter :=
  match n with
  | O => c
  | S k => snd (inc_dec low high (after_calls_with low high k c))
  end.

(** ** Further vocabulary: the port locator *)

(** The port at which the scan of [get_device_port] stops: its hardware
    id contains the signature, and its location either contains the
    filter or is missing. *)
Definition stops_scan (dev_id loc : string) (p : ListPortInfo) : bool :=
  contains dev_id (hwid p)
  && match location p with
     | None => true
     | Some ploc => contains loc ploc
     end.

(** The two lines printed for the port that is returned. *)
Definition port_report (p : ListPortInfo) : list Event :=
  match location p with
  | None => []
  | Some ploc =>
      [ Output (Text ("Port: " ++ str_port p ++ LF
                      ++ "Port Location: " ++ ploc ++ LF
                      ++ "Hardware ID: " ++ hwid p ++ LF
                      ++ "Device: " ++ device p));
        Output (Text "***************") ]
  end.

(** A serial port without USB location, as a built-in UART shows up. *)
Definition uart_port : ListPortInfo := mkPort "/dev/ttyS0" "ttyS0" "n/a" None.

(** An adapter that carries the signature in its hardware id but
    reports no location. *)
Definition bare_port : ListPortInfo :=
  mkPort "/dev/ttyACM0" "K800 MCU" "USB VID:PID=353F:A101" None.

(** A world with the given ports attached, in which no call raises. *)
Definition world_of (ports : list ListPortInfo) : World :=
  mkWorld (fun _ => None)
          (fun a b => String.ltb (device a) (device b))
          (fun _ => ports)
          (fun _ => 0%N)
          (fun _ _ => [])
          foreign_frame
          (fun k => Z.of_nat k).

(** ** Further vocabulary: properties of traces *)

(** A state property that looks at the trace only. *)
Definition on_trace (T : list Event -> Prop) (s : State) : Prop := T (trace s).

(** [T] survives the recording of any event of kind [K]. *)
Definition closed_under (K : Event -> Prop) (T : list Event -> Prop) : Prop :=
  forall (tr : list Event) (ev : Event), K ev -> T tr -> T (tr ++ [ev])%list.

(** From a state in [P], [m] ends in [Q] when it returns, and in [X]
    when it raises or is still running. *)
Definition triple {A} (P : State -> Prop) (m : M A) (Q : A -> State -> Prop)
  (X : State -> Prop) : Prop :=
  forall s : State, P s ->
    match m s with
    | (Val a, s1) => Q a s1
    | (Exc _, s1) => X s1
    | (Running, s1) => X s1
    end.

(** Every event of kind [B] comes after some event of kind [A]. *)
Definition preceded (A B : Event -> Prop) (tr : list Event) : Prop :=
  forall (pre : list Event) (ev : Event) (post : list Event),
    tr = (pre ++ ev :: post)%list -> B ev -> Exists A pre.

(** The events [get_device_port] can record. *)
Definition locator_event (ev : Event) : Prop :=
  match ev with
  | Call Comports _ => True
  | Output (Text _) => True
  | _ => False
  end.

(** The events [configure_can] can record for its three arguments. *)
Definition configure_event (interface mode baud : string) (ev : Event) : Prop :=
  match ev with
  | Call (PortWrite bs) _ =>
      bs = encode (mode_command interface mode)
      \/ bs = encode (baud_command interface baud)
  | Call (Sleep ms) _ => ms = 100
  | Call PortInWaiting _ => True
  | Call (PortRead _) _ => True
  | Output (Text _) => True
  | _ => False
  end.

(** The events [set_led_status] can record for [status]. *)
Definition led_event (status : bool) (ev : Event) : Prop :=
  match ev with
  | Call (PortWrite bs) _ =>
      exists i : nat, (i < 4)%nat /\ bs = encode (led_command i status)
  | Call (Sleep ms) _ => ms = 100
  | _ => False
  end.

(** The events one pass of the loop can record. *)
Definition loop_event (mode : option string) (ev : Event) : Prop :=
  match ev with
  | Call Now _ => is_send mode = true
  | Call (BusSend m timeout_ms) _ =>
      is_send mode = true /\ timeout_ms = 200
  | Output (Sent _) => is_send mode = true
  | Call (Sleep ms) _ => is_send mode = true /\ ms = 100
  | Call BusRecv _ => is_send mode = false
  | Output (Received _) => is_send mode = false
  | _ => False
  end.

(** The events the [finally] block can record. *)
Definition teardown_event (is_led : Flag) (ev : Event) : Prop :=
  match ev with
  | Call (Sleep ms) _ => ms = 1000 \/ ms = 100
  | Call PortResetInput _ => True
  | Call PortResetOutput _ => True
  | Call (PortWrite bs) _ =>
      flag_is_off is_led = false
      /\ exists i : nat, (i < 4)%nat /\ bs = encode (led_command i false)
  | Call BusShutdown _ => True
  | Call PortClose _ => True
  | _ => False
  end.

(** The events the [try] statement can record: the loop, the line of an
    [except] clause, the [finally] block. *)
Definition session_event (mode : option string) (is_led : Flag) (ev : Event) : Prop :=
  loop_event mode ev \/ teardown_event is_led ev
  \/ match ev with Output (Text _) => True | _ => False end.

(** ** Further vocabulary: everything [main] can do *)

(** The events [main] can record for its three settings. *)
Definition main_event (mode : option string) (bit_rate : Z) (is_led : string)
  (ev : Event) : Prop :=
  match ev with
  | Call Comports _ => True
  | Call (SerialOpen _) _ => True
  | Call (PortWrite bs) _ =>
      bs = encode CRLF
      \/ bs = encode (mode_command "VCAN0" "slcan")
      \/ bs = encode (baud_command "VCAN0" (str_int bit_rate))
      \/ (String.eqb is_led "off" = false
          /\ exists (i : nat) (status : bool),
               (i < 4)%nat /\ bs = encode (led_command i status))
  | Call PortInWaiting _ => True
  | Call (PortRead _) _ => True
  | Call PortResetInput _ => True
  | Call PortResetOutput _ => True
  | Call PortClose _ => True
  | Call (Sleep ms) _ => ms = 100 \/ ms = 1000
  | Call Now _ => is_send mode = true
  | Call (BusOpen interface _ bitrate own) _ =>
      interface = "slcan" /\ bitrate = bit_rate * 1000 /\ own = false
  | Call (BusSend _ timeout_ms) _ => is_send mode = true /\ timeout_ms = 200
  | Call BusRecv _ => is_send mode = false
  | Call BusShutdown _ => True
  | Output (Text _) => True
  | Output (Sent _) => is_send mode = true
  | Output (Received _) => is_send mode = false
  end.

(** ** Further vocabulary: the loop *)

(** The frames [bus.send] accepted, in order. *)
Definition frames_accepted (tr : list Event) : list Message :=
  flat_map (fun ev => match ev with Call (BusSend m _) Done => [m] | _ => [] end) tr.

(** The frames printed as sent, in order. *)
Definition frames_reported (tr : list Event) : list Message :=
  flat_map (fun ev => match ev with Output (Sent m) => [m] | _ => [] end) tr.

(** How many library calls one pass of the loop makes. *)
Definition calls_per_pass (mode : option string) : nat :=
  if is_send mode then 3 else 1.

(** The record of a call that raised [e], for the event the call would
    have left had it returned. *)
Definition attempt (e : exn) (ev : Event) : Event :=
  match ev with
  | Call o _ => Call o (Raised e)
  | Output p => Output p
  end.

(** Every frame reported as sent was accepted, and no send has failed. *)
Definition sends_reported (s : State) : Prop :=
  frames_reported (trace s) = frames_accepted (trace s)
  /\ bus_sends (trace s) = frames_accepted (trace s).

(** Every frame reported as sent was accepted, and at most the last
    send has failed. *)
Definition sends_reported_but_last (s : State) : Prop :=
  frames_reported (trace s) = frames_accepted (trace s)
  /\ exists rest : list Message,
       bus_sends (trace s) = (frames_accepted (trace s) ++ rest)%list
       /\ (List.length rest <= 1)%nat.

(** A world with a K800 attached in which exactly the call number [k]
    raises [e]. *)
Definition world_failing_at (k : nat) (e : exn) : World :=
  world_with (fun i => if Nat.eqb i k then Some e else None).

(** ** Further vocabulary: the order of the calls *)

(** An operation on the open management port. *)
Definition port_op (ev : Event) : Prop :=
  match ev with
  | Call (PortWrite _) _ => True
  | Call PortInWaiting _ => True
  | Call (PortRead _) _ => True
  | Call PortResetInput _ => True
  | Call PortResetOutput _ => True
  | Call PortClose _ => True
  | _ => False
  end.

(** [serial.Serial(...)] returned. *)
Definition serial_opened (ev : Event) : Prop :=
  match ev with
  | Call (SerialOpen _) Done => True
  | _ => False
  end.

(** A call of [can.Bus(...)], whatever its outcome. *)
Definition bus_open_call (ev : Event) : Prop :=
  match ev with
  | Call (BusOpen _ _ _ _) _ => True
  | _ => False
  end.

(** [can.Bus(...)] returned. *)
Definition bus_opened (ev : Event) : Prop :=
  match ev with
  | Call (BusOpen _ _ _ _) Done => True
  | _ => False
  end.

(** What the script does with the bus, and its teardown. *)
Definition session_op (ev : Event) : Prop :=
  match ev with
  | Call Now _ => True
  | Call (BusSend _ _) _ => True
  | Call BusRecv _ => True
  | Call BusShutdown _ => True
  | Call PortResetInput _ => True
  | Call PortResetOutput _ => True
  | Call PortClose _ => True
  | _ => False
  end.

(** The write of the mode line, of the baud line for [bit_rate], returned. *)
Definition mode_written (ev : Event) : Prop :=
  ev = Call (PortWrite (encode ("set can-mode VCAN0 slcan" ++ CRLF))) Done.

Definition baud_written (bit_rate : Z) (ev : Event) : Prop :=
  ev = Call (PortWrite (encode ("set can-baudrate VCAN0 " ++ str_int bit_rate ++ CRLF))) Done.

(** [A] has happened and, so far, every [B] came after an [A]. *)
Definition reached (A B : Event -> Prop) (tr : list Event) : Prop :=
  preceded A B tr /\ Exists A tr.

(** No event of kind [B] so far. *)
Definition none_yet (B : Event -> Prop) (tr : list Event) : Prop :=
  Forall (fun ev => ~ B ev) tr.

(** The property that survives everything. *)
Definition any_event (ev : Event) : Prop := True.

(** A run of [main] in receive mode at 250 kbit/s with the LED check
    off, cut after one pass of the loop, in the world where nothing
    raises. *)
Definition sample_trace : list Event :=
  trace (snd (main quiet_world 1 (Some "r") 250 "off" state0)).

(** The event number [k] of [sample_trace]. *)
Definition sample_event (k : nat) : Event :=
  nth k sample_trace (Output (Text "")).

(** Once an event of kind [C] has happened, only events of kind [D]
    follow. *)
Definition then_only (C D : Event -> Prop) (tr : list Event) : Prop :=
  forall (pre : list Event) (ev : Event) (post : list Event),
    tr = (pre ++ ev :: post)%list -> C ev -> Forall D post.

(** A call of [port.close()], of [bus.shutdown()], whatever its outcome. *)
Definition close_call (ev : Event) : Prop :=
  match ev with Call PortClose _ => True | _ => False end.

Definition shutdown_call (ev : Event) : Prop :=
  match ev with Call BusShutdown _ => True | _ => False end.

(** Neither of the two. *)
Definition not_closing (ev : Event) : Prop :=
  match ev with
  | Call PortClose _ => False
  | Call BusShutdown _ => False
  | _ => True
  end.

(** The property that nothing survives. *)
Definition no_event (ev : Event) : Prop := False.

(** A run of [main] in receive mode that the operator interrupts during
    the second [bus.recv()]. *)
Definition interrupted_trace : list Event :=
  trace (snd (main (world_failing_at 15 KeyboardInterrupt) 3 (Some "r") 250 "off" state0)).

(** ** Further vocabulary: replies and failures for the worked cases *)

(** A world with a K800 attached in which no call raises and the
    management port has one byte waiting, [0xFF], which no UTF-8 text
    contains. *)
Definition garbled_world : World :=
  mkWorld (fun _ => None)
          (fun a b => String.ltb (device a) (device b))
          (fun _ => k800_ports)
          (fun _ => 1%N)
          (fun _ _ => [xff])
          foreign_frame
          (fun k => Z.of_nat k).

(** An interface name with a letter outside ASCII: [VCANé], as its
    UTF-8 text. *)
Definition accented_name : string :=
  "VCAN" ++ String (ascii_of_nat 195) (String (ascii_of_nat 169) EmptyString).

(** Whether an event is a [print]. *)
Definition is_output (ev : Event) : bool :=
  match ev with Output _ => true | Call _ _ => false end.

(** The bus fails after one frame, the teardown gets as far as
    [bus.shutdown()], which raises. *)
Definition shutdown_error_world : World :=
  world_with (fun k =>
    if Nat.eqb k 1 then Some (Exception "device disconnected")
    else if Nat.eqb k 5 then Some (Exception "shutdown failed")
    else None).

(** ** Further vocabulary: which devices are opened *)

(** [path] is what the lookup with filter [loc] found in the ports
    that the enumeration made as call number [k] returned, and that
    enumeration is recorded in [tr]: the first port, in sorted order,
    at which the scan stops has a location and the device path [path]. *)
Definition lookup_found (w : World) (k : nat) (loc path : string)
  (tr : list Event) : Prop :=
  In (Call Comports (Ports (attached w k))) tr
  /\ exists (port : ListPortInfo) (ploc : string),
       find (stops_scan MCU_VID_PID loc) (sorted (port_lt w) (attached w k)) = Some port
       /\ device port = path /\ location port = Some ploc.

(** The serial port is opened on what the first lookup ([.0], call 0)
    found, the bus on what the second ([.2], call 1) found. *)
Definition opens_what_was_found (w : World) (tr : list Event) (ev : Event) : Prop :=
  match ev with
  | Call (SerialOpen path) _ => lookup_found w 0 ".0" path tr
  | Call (BusOpen _ channel _ _) _ => lookup_found w 1 ".2" channel tr
  | _ => True
  end.

(** Neither [serial.Serial(...)] nor [can.Bus(...)]. *)
Definition not_opening (ev : Event) : Prop :=
  match ev with
  | Call (SerialOpen _) _ => False
  | Call (BusOpen _ _ _ _) _ => False
  | _ => True
  end.

(** Everything opened so far was opened on what was found, and the
    calls [cs] are recorded. *)
Definition opened_as_found (w : World) (cs : list Event) (tr : list Event) : Prop :=
  (forall ev, In ev tr -> opens_what_was_found w tr ev)
  /\ (forall c, In c cs -> In c tr).

(** * Properties *)

(** ** The oscillating counter *)

Lemma succ_mod_18 (n : nat) :
  (S n mod 18 = if Nat.eqb (n mod 18) 17 then 0 else S (n mod 18))%nat.
Proof.
  pose proof (Nat.div_mod_eq n 18) as E.
  pose proof (Nat.mod_upper_bound n 18 ltac:(discriminate)) as B.
  destruct (Nat.eqb_spec (n mod 18) 17) as [H17 | H17].
  - symmetry. apply Nat.mod_unique with (q := S (n / 18)); lia.
  - symmetry. apply Nat.mod_unique with (q := (n / 18)%nat); lia.
Qed.

Lemma on_wave_step (n : nat) (c : Counter) :
  on_wave n c -> on_wave (S n) (snd (inc_dec_default c)).
Proof.
  unfold on_wave, triangle. rewrite succ_mod_18.
  pose proof (Nat.mod_upper_bound n 18 ltac:(discriminate)) as B.
  destruct c as [v up]. cbn [number is_increment].
  remember (n mod 18)%nat as r eqn:Er. clear Er n.
  intros (Hv & Hup & Hdown).
  do 18 (destruct r as [| r];
         [ subst v;
           try (rewrite Hup by lia); try (rewrite Hdown by lia);
           cbn; repeat split; intros; try reflexivity; lia
         | ]).
  lia.
Qed.

Lemma after_calls_on_wave (n : nat) : on_wave n (after_calls n counter0).
Proof.
  induction n as [| n IH].
  - cbn. repeat split; intros; cbn in *; lia.
  - cbn [after_calls]. now apply on_wave_step.
Qed.

Lemma triangle_range (n : nat) : 0 <= triangle n <= 9.
Proof.
  unfold triangle.
  pose proof (Nat.mod_upper_bound n 18 ltac:(discriminate)) as B.
  destruct (Z.leb_spec (Z.of_nat (n mod 18)) 9); lia.
Qed.

Lemma inc_dec_in_range (c : Counter) :
  in_range c -> in_range (snd (inc_dec_default c)).
Proof.
  destruct c as [v up]. unfold in_range, inc_dec_default, inc_dec, turn. cbn.
  intros H.
  destruct (Z.eqb_spec v 0) as [E0 | N0]; [lia |].
  destruct (Z.eqb_spec v 9) as [E9 | N9]; [lia |].
  destruct up; lia.
Qed.

(** C9: the range [0,9] is kept by every call of [inc_dec_data_string]
    with its default bounds, whatever the direction flag says. *)
Theorem counter_range_invariant (c : Counter) :
  0 <= number c <= 9 -> 0 <= number (snd (inc_dec_default c)) <= 9.
Proof. exact (inc_dec_in_range c). Qed.

Lemma counter_range_invariant_witness :
  0 <= number (mkCounter 9 true) <= 9
  /\ 0 <= number (snd (inc_dec_default (mkCounter 9 true))) <= 9.
Proof.
  split; [cbn; lia | apply (counter_range_invariant (mkCounter 9 true)); cbn; lia].
Defined.

(** C3: from [number = 0], ascending, the calls return the triangle wave
    from its second point on: the [n+1]-th call leaves [number] at
    [triangle (n+1)] and returns the text for it, and the wave starts
    1,2,...,9,8,...,1,0,1,2. *)
Theorem counter_is_triangle_wave :
  (forall n : nat,
      number (after_calls (S n) counter0) = triangle (S n)
      /\ nth_call (S n) counter0 = "K800_" ++ str_int (triangle (S n)))
  /\ map (fun n => number (after_calls n counter0)) (seq 1 20)
     = [1; 2; 3; 4; 5; 6; 7; 8; 9; 8; 7; 6; 5; 4; 3; 2; 1; 0; 1; 2].
Proof.
  split; [| reflexivity].
  intros n.
  destruct (after_calls_on_wave (S n)) as (Hv & _).
  split; [exact Hv |].
  unfold nth_call. cbn [Nat.pred].
  cbn [after_calls] in Hv. rewrite <- Hv.
  unfold inc_dec_default, inc_dec. reflexivity.
Qed.

(** ** Running calls that do not raise *)

Lemma extend_extend (s : State) (j k : nat) (xs ys : list Event) :
  extend (extend s j xs) k ys = extend s (k + j) (xs ++ ys).
Proof.
  unfold extend. cbn. f_equal; [lia | now rewrite app_assoc].
Qed.

Lemma extend_0_nil (s : State) : extend s 0 [] = s.
Proof. destruct s. unfold extend. cbn. now rewrite app_nil_r. Qed.

Lemma call_calm {A} (w : World) (o : Op) (value : nat -> A) (show : A -> Answer)
  (s : State) :
  fault w (tick s) = None ->
  call w o value show s
  = (Val (value (tick s)), extend s 1 [Call o (show (value (tick s)))]).
Proof. intros H. unfold call. now rewrite H. Qed.

Lemma call_fault {A} (w : World) (o : Op) (value : nat -> A) (show : A -> Answer)
  (s : State) (e : exn) :
  fault w (tick s) = Some e ->
  call w o value show s = (Exc e, extend s 1 [Call o (Raised e)]).
Proof. intros H. unfold call. now rewrite H. Qed.

Lemma print_extend (p : Printed) (s : State) :
  print p s = (Val tt, extend s 0 [Output p]).
Proof. reflexivity. Qed.

Lemma bind_val {A B} (m : M A) (k : A -> M B) (s s1 : State) (a : A) :
  m s = (Val a, s1) -> bind m k s = k a s1.
Proof. intros H. unfold bind. now rewrite H. Qed.

Lemma bind_exc {A B} (m : M A) (k : A -> M B) (s s1 : State) (e : exn) :
  m s = (Exc e, s1) -> bind m k s = (Exc e, s1).
Proof. intros H. unfold bind. now rewrite H. Qed.

Lemma bind_running {A B} (m : M A) (k : A -> M B) (s s1 : State) :
  m s = (Running, s1) -> bind m k s = (Running, s1).
Proof. intros H. unfold bind. now rewrite H. Qed.

Lemma bind_bind {A B C} (m : M A) (k : A -> M B) (h : B -> M C) (s : State) :
  bind (bind m k) h s = bind m (fun a => bind (k a) h) s.
Proof. unfold bind. destruct (m s) as [[a | e |] s1]; reflexivity. Qed.

(** Run the next call of the goal, which the hypothesis [H : calm ...]
    says does not raise. *)
Ltac run_call H :=
  repeat rewrite bind_bind;
  match goal with
  | |- context [bind (call ?w ?o ?v ?sh) ?k ?s] =>
      rewrite (bind_val (call w o v sh) k s _ _
                 (call_calm w o v sh s ltac:(apply H; cbn; lia)))
  | |- context [call ?w ?o ?v ?sh ?s] =>
      rewrite (call_calm w o v sh s ltac:(apply H; cbn; lia))
  end.

(** ** Start-up *)

Lemma in_list_false (x : Z) (xs : list Z) : ~ In x xs -> in_list x xs = false.
Proof.
  intros H. unfold in_list.
  destruct (existsb (Z.eqb x) xs) eqn:E; [| reflexivity].
  apply existsb_exists in E. destruct E as (y & Hy & Exy).
  apply Z.eqb_eq in Exy. subst y. contradiction.
Qed.

(** C4: with a bit-rate outside the allowed list, [main] prints the
    error and leaves through [sys.exit(1)]: non-zero status, and no call
    to the port enumeration, the serial port or the bus has been made. *)
Theorem invalid_bit_rate_exits_first (w : World) (fuel : nat)
  (mode : option string) (bit_rate : Z) (is_led : string) (s : State) :
  ~ In bit_rate [10; 20; 50; 100; 125; 250; 500; 750; 1000] ->
  main w fuel mode bit_rate is_led s
  = (Exc (SystemExit 1),
     extend s 0
       [Output (Text "Error: Invalid bit_rate. Please enter a value between 1 and 1000 kbps.")])
  /\ exit_status (fst (main w fuel mode bit_rate is_led s)) = Some 1
  /\ tick (snd (main w fuel mode bit_rate is_led s)) = tick s.
Proof.
  intros H.
  assert (E : main w fuel mode bit_rate is_led s
              = (Exc (SystemExit 1),
                 extend s 0
                   [Output (Text "Error: Invalid bit_rate. Please enter a value between 1 and 1000 kbps.")])).
  { unfold main. change valid_bit_rates with [10; 20; 50; 100; 125; 250; 500; 750; 1000].
    rewrite (in_list_false _ _ H). reflexivity. }
  rewrite E. repeat split.
Qed.

Lemma invalid_bit_rate_exits_first_witness :
  ~ In 800 [10; 20; 50; 100; 125; 250; 500; 750; 1000]
  /\ exit_status (fst (main quiet_world 3 (Some "s") 800 "on" state0)) = Some 1.
Proof.
  assert (H : ~ In 800 [10; 20; 50; 100; 125; 250; 500; 750; 1000]).
  { cbn. intros [E | [E | [E | [E | [E | [E | [E | [E | [E | []]]]]]]]]]; discriminate E. }
  split; [exact H |].
  apply (invalid_bit_rate_exits_first quiet_world 3 (Some "s") 800 "on" state0 H).
Defined.

(** ** The command channel *)

Lemma is_ascii_app (xs ys : list byte) :
  is_ascii (xs ++ ys) = is_ascii xs && is_ascii ys.
Proof. unfold is_ascii. apply forallb_app. Qed.

Lemma encode_app (a b : string) : encode (a ++ b) = (encode a ++ encode b)%list.
Proof.
  unfold encode. induction a as [| c a IH]; cbn; [reflexivity |].
  f_equal. exact IH.
Qed.

Lemma command_is_ascii (head interface arg : string) :
  is_ascii (encode head) = true ->
  is_ascii (encode interface) = true ->
  is_ascii (encode arg) = true ->
  is_ascii (encode (head ++ interface ++ " " ++ arg ++ CRLF)) = true.
Proof.
  intros Hh Hi Ha.
  rewrite !encode_app, !is_ascii_app, Hh, Hi, Ha. reflexivity.
Qed.

(** C5: when none of its six calls raises, [configure_can] writes the
    mode line, waits 100 ms, writes the baud line, waits 100 ms, asks how
    many bytes are waiting and reads exactly that many; it then prints
    them decoded (or raises when they are not UTF-8).  Both lines end in
    CR LF, and are ASCII when the three arguments are. *)
Theorem configure_can_trace (w : World) (interface mode baud : string) (s : State) :
  calm w (tick s) 6 ->
  let n := buffered w (4 + tick s) in
  let bs := incoming w (5 + tick s) n in
  configure_can w interface mode baud s
  = match decode bs with
    | inr text =>
        (Val tt, extend s 6 (configure_calls interface mode baud n bs ++ [Output (Text text)]))
    | inl e => (Exc e, extend s 6 (configure_calls interface mode baud n bs))
    end
  /\ (is_ascii (encode interface) = true ->
      is_ascii (encode mode) = true ->
      is_ascii (encode baud) = true ->
      is_ascii (encode ("set can-mode " ++ interface ++ " " ++ mode ++ CRLF)) = true
      /\ is_ascii (encode ("set can-baudrate " ++ interface ++ " " ++ baud ++ CRLF)) = true).
Proof.
  intros H n bs. subst n bs. split.
  - unfold configure_can, port_write, time_sleep, port_inWaiting, port_read, procedure,
      mode_command, baud_command.
    do 6 run_call H.
    unfold configure_calls.
    cbn [tick extend Nat.add globals trace].
    destruct (decode _) as [e | text];
      unfold raise; try rewrite print_extend;
      repeat rewrite extend_extend; reflexivity.
  - intros Hi Hm Hb. split; apply command_is_ascii; auto.
Qed.

Lemma calm_quiet_world (from count : nat) : calm quiet_world from count.
Proof. intros k _. reflexivity. Defined.

Lemma configure_can_trace_witness :
  calm quiet_world (tick state0) 6
  /\ fst (configure_can quiet_world "VCAN0" "slcan" "500" state0) = Val tt
  /\ is_ascii (encode ("set can-mode " ++ "VCAN0" ++ " " ++ "slcan" ++ CRLF)) = true.
Proof.
  pose proof (configure_can_trace quiet_world "VCAN0" "slcan" "500" state0
                (calm_quiet_world (tick state0) 6)) as [E A].
  split; [apply calm_quiet_world |].
  split; [rewrite E; reflexivity |].
  apply A; reflexivity.
Defined.

Lemma set_led_status_runs (w : World) (port : Serial) (is_led : Flag)
  (status : bool) (s : State) :
  flag_is_off is_led = false ->
  calm w (tick s) 8 ->
  set_led_status w (Some port) is_led status s = (Val tt, extend s 8 (led_calls status)).
Proof.
  intros Hflag H. unfold set_led_status. rewrite Hflag.
  cbn [truthy_port negb orb LED_COUNT seq for_each].
  unfold port_write, time_sleep, procedure.
  do 8 run_call H.
  unfold ret. repeat rewrite extend_extend.
  destruct status; reflexivity.
Qed.

Lemma set_led_status_off (w : World) (port : option Serial) (status : bool)
  (s : State) :
  set_led_status w port (FlagStr "off") status s = (Val tt, s).
Proof. reflexivity. Qed.

Lemma set_led_status_no_port (w : World) (is_led : Flag) (status : bool)
  (s : State) :
  set_led_status w None is_led status s = (Val tt, s).
Proof.
  unfold set_led_status. cbn [truthy_port negb]. rewrite orb_true_r. reflexivity.
Qed.

(** C10: on an open port, [set_led_status] with the default flag [False]
    does not return early: it writes the four [dio set LED0 <i> <state>]
    lines, each followed by its delay.  Only the string ['off'] or a
    missing port make it return at once. *)
Theorem set_led_status_default_flag_writes (w : World) (port : Serial)
  (status : bool) (s : State) :
  calm w (tick s) 8 ->
  set_led_status w (Some port) (FlagBool false) status s
  = (Val tt, extend s 8 (led_calls status))
  /\ set_led_status w (Some port) (FlagStr "off") status s = (Val tt, s)
  /\ set_led_status w None (FlagBool false) status s = (Val tt, s).
Proof.
  intros H. split; [| split].
  - apply set_led_status_runs; [reflexivity | exact H].
  - apply set_led_status_off.
  - apply set_led_status_no_port.
Qed.

Lemma set_led_status_default_flag_writes_witness :
  calm quiet_world (tick state0) 8
  /\ trace (snd (set_led_status quiet_world (Some (SerialOn "/dev/ttyACM0"))
                   (FlagBool false) true state0))
     = led_calls true.
Proof.
  split; [apply calm_quiet_world |].
  destruct (set_led_status_default_flag_writes quiet_world (SerialOn "/dev/ttyACM0")
              true state0 (calm_quiet_world (tick state0) 8)) as [E _].
  rewrite E. reflexivity.
Defined.

(** ** The port locator *)

Lemma scan_ports_without_filter (dev_id : string) (ports : list ListPortInfo)
  (s : State) :
  scan_ports dev_id None ports s = (Val None, s).
Proof.
  induction ports as [| port rest IH]; cbn [scan_ports]; [reflexivity |].
  destruct (contains dev_id (hwid port)); exact IH.
Qed.

(** C1: without a location filter [get_device_port] never returns a
    path: the test [location and ...] is false for every port, so the
    scan falls through to [return None].  With a K800 attached the
    described result is [/dev/ttyACM0]; the code returns [None]. *)
Theorem get_device_port_without_filter (w : World) (dev_id : string) (s : State) :
  (forall path : string, fst (get_device_port w dev_id None s) <> Val (Some path))
  /\ fst (get_device_port w dev_id None s)
     = match fault w (tick s) with Some e => Exc e | None => Val None end
  /\ fst (get_device_port quiet_world MCU_VID_PID None state0) = Val None
  /\ first_with_signature (port_lt quiet_world) MCU_VID_PID (attached quiet_world 0)
     = Some "/dev/ttyACM0".
Proof.
  assert (E : fst (get_device_port w dev_id None s)
              = match fault w (tick s) with Some e => Exc e | None => Val None end).
  { unfold get_device_port, comports, bind, call.
    destruct (fault w (tick s)) as [e |]; [reflexivity |].
    rewrite scan_ports_without_filter. reflexivity. }
  repeat split.
  - intros path. rewrite E. destruct (fault w (tick s)); discriminate.
  - exact E.
Qed.

(** ** Invariants of the script's code *)

Section Preservation.

Variable w : World.
Variable I : State -> Prop.

Lemma preserves_ret {A} (a : A) : preserves I (ret a).
Proof. intros s H. exact H. Qed.

Lemma preserves_raise {A} (e : exn) : preserves I (@raise A e).
Proof. intros s H. exact H. Qed.

Lemma preserves_bind {A B} (m : M A) (k : A -> M B) :
  preserves I m -> (forall a, preserves I (k a)) -> preserves I (bind m k).
Proof.
  intros Hm Hk s H. unfold bind.
  specialize (Hm s H). destruct (m s) as [[a | e |] s1]; cbn in *.
  - now apply Hk.
  - exact Hm.
  - exact Hm.
Qed.

Lemma preserves_for_each {A} (xs : list A) (body : A -> M unit) :
  (forall x, preserves I (body x)) -> preserves I (for_each xs body).
Proof.
  intros Hb. induction xs as [| x t IH]; cbn [for_each].
  - apply preserves_ret.
  - apply preserves_bind; [apply Hb | intros _; exact IH].
Qed.

Lemma preserves_forever (fuel : nat) (body : M unit) :
  preserves I body -> preserves I (forever fuel body).
Proof.
  intros Hb. induction fuel as [| fuel IH]; cbn [forever].
  - intros s H. exact H.
  - apply preserves_bind; [exact Hb | intros _; exact IH].
Qed.

Lemma preserves_try_except {A} (body : M A) (handler : exn -> option (M A)) :
  preserves I body ->
  (forall e h, handler e = Some h -> preserves I h) ->
  preserves I (try_except body handler).
Proof.
  intros Hb Hh s H. unfold try_except.
  specialize (Hb s H). destruct (body s) as [[a | e |] s1]; cbn in *; try exact Hb.
  destruct (handler e) as [h |] eqn:E; [| exact Hb].
  now apply (Hh e h E).
Qed.

Lemma preserves_try_finally {A} (body : M A) (fin : M unit) :
  preserves I body -> preserves I fin -> preserves I (try_finally body fin).
Proof.
  intros Hb Hf s H. unfold try_finally.
  specialize (Hb s H). destruct (body s) as [[a | e |] s1]; cbn in *; try exact Hb.
  - specialize (Hf s1 Hb). destruct (fin s1) as [[u | e |] s2]; exact Hf.
  - specialize (Hf s1 Hb). destruct (fin s1) as [[u | e' |] s2]; exact Hf.
Qed.

End Preservation.

Section TracePreservation.

Variable w : World.
Variable P : Event -> Prop.
Variable J : Counter -> Prop.

Lemma Inv_record (ev : Event) (s : State) :
  P ev -> Inv P J s -> Inv P J (record ev s).
Proof.
  intros Hev [Ht Hg]. split; [| exact Hg].
  cbn. apply Forall_app. split; [exact Ht | now constructor].
Qed.

Lemma preserves_print (p : Printed) :
  P (Output p) -> preserves (Inv P J) (print p).
Proof. intros Hp s H. now apply Inv_record. Qed.

Lemma preserves_call {A} (o : Op) (value : nat -> A) (show : A -> Answer) :
  (forall a, P (Call o a)) -> preserves (Inv P J) (call w o value show).
Proof.
  intros Ho s H. unfold call.
  destruct (fault w (tick s)) as [e |]; cbn.
  - destruct (Inv_record _ s (Ho (Raised e)) H) as [Ht Hg]. split; assumption.
  - destruct (Inv_record _ s (Ho (show (value (tick s)))) H) as [Ht Hg].
    split; assumption.
Qed.

End TracePreservation.

(** ** Frames built in send mode *)

Lemma inc_dec_text (c : Counter) :
  fst (inc_dec_default c) = "K800_" ++ str_int (number (snd (inc_dec_default c))).
Proof. reflexivity. Qed.

Lemma digit_text (v : Z) :
  0 <= v <= 9 ->
  exists d : nat, (d <= 9)%nat /\ encode ("K800_" ++ str_int v) = digit_payload d.
Proof.
  intros H.
  assert (C : v = 0 \/ v = 1 \/ v = 2 \/ v = 3 \/ v = 4 \/ v = 5 \/ v = 6
              \/ v = 7 \/ v = 8 \/ v = 9) by lia.
  exists (Z.to_nat v).
  repeat (destruct C as [C | C]; [subst v; split; [cbn; lia | reflexivity] |]).
  subst v; split; [cbn; lia | reflexivity].
Qed.

Ltac keep_step :=
  first
    [ apply preserves_ret
    | apply preserves_raise
    | apply preserves_print; exact Logic.I
    | apply preserves_call; intros ?; exact Logic.I
    | apply preserves_bind; [| intros ?]
    | apply preserves_for_each; intros ? ].

Ltac keep := repeat keep_step.

Section NoOtherFrames.

Variable w : World.
Variable J : Counter -> Prop.

Lemma scan_ports_keeps (dev_id : string) (location_filter : option string)
  (ports : list ListPortInfo) :
  preserves (Inv sends_demo_frame J) (scan_ports dev_id location_filter ports).
Proof.
  induction ports as [| port rest IH]; cbn [scan_ports]; [keep |].
  destruct (contains dev_id (hwid port)); [| exact IH].
  destruct location_filter as [loc |]; [| exact IH].
  destruct (truthy loc); [| exact IH].
  destruct (location port) as [ploc |]; [| keep].
  destruct (contains loc ploc); [keep | exact IH].
Qed.

Lemma get_device_port_keeps (dev_id : string) (location_filter : option string) :
  preserves (Inv sends_demo_frame J) (get_device_port w dev_id location_filter).
Proof.
  unfold get_device_port, comports. keep. apply scan_ports_keeps.
Qed.

Lemma configure_can_keeps (interface mode baud : string) :
  preserves (Inv sends_demo_frame J) (configure_can w interface mode baud).
Proof.
  unfold configure_can, port_write, time_sleep, port_inWaiting, port_read, procedure.
  keep. destruct (decode _); keep.
Qed.

Lemma set_led_status_keeps (port : option Serial) (is_led : Flag) (status : bool) :
  preserves (Inv sends_demo_frame J) (set_led_status w port is_led status).
Proof.
  unfold set_led_status, port_write, time_sleep, procedure.
  destruct (flag_is_off is_led || negb (truthy_port port)); keep.
Qed.

Lemma teardown_keeps (port : Serial) (is_led : Flag) :
  preserves (Inv sends_demo_frame J) (teardown w port is_led).
Proof.
  unfold teardown, time_sleep, port_reset_input_buffer, port_reset_output_buffer,
    bus_shutdown, port_close, procedure.
  keep. apply set_led_status_keeps.
Qed.

Lemma on_exception_keeps (e : exn) (h : M unit) :
  on_exception e = Some h -> preserves (Inv sends_demo_frame J) h.
Proof.
  destruct e as [| msg | code]; cbn; intros E; inversion E; subst; keep.
Qed.

End NoOtherFrames.

Lemma loop_body_keeps (w : World) (mode : option string) :
  preserves (Inv sends_demo_frame in_range) (loop_body w mode).
Proof.
  unfold loop_body. destruct (is_send mode).
  - intros s [Ht Hg]. unfold bind at 1. unfold inc_dec_data_string.
    pose proof (inc_dec_text (globals s)) as Etext.
    pose proof (inc_dec_in_range (globals s) Hg) as Hrange.
    destruct (inc_dec_default (globals s)) as [text c]. cbn [fst snd] in Etext, Hrange.
    assert (H1 : Inv sends_demo_frame in_range (mkState (tick s) c (trace s)))
      by (split; assumption).
    revert H1. generalize (mkState (tick s) c (trace s)).
    change (preserves (Inv sends_demo_frame in_range)
              (msg_time <- datetime_now_timestamp w ;;
               bus_send w (mkMessage msg_time 291 true (encode text)) 200 ;;
               print (Sent (mkMessage msg_time 291 true (encode text))) ;;
               time_sleep w 100)).
    unfold datetime_now_timestamp, bus_send, time_sleep, procedure.
    apply preserves_bind; [keep | intros msg_time].
    apply preserves_bind; [| intros _; keep].
    apply preserves_call. intros a. cbn.
    repeat split. subst text. apply digit_text. exact Hrange.
  - unfold bus_recv. keep.
Qed.

Lemma run_session_keeps (w : World) (fuel : nat) (mode : option string)
  (port : Serial) (is_led : Flag) :
  preserves (Inv sends_demo_frame in_range) (run_session w fuel mode port is_led).
Proof.
  unfold run_session, session_loop.
  apply preserves_try_finally; [| apply teardown_keeps].
  apply preserves_try_except; [| apply on_exception_keeps].
  apply preserves_forever. apply loop_body_keeps.
Qed.

Lemma main_keeps (w : World) (fuel : nat) (mode : option string) (bit_rate : Z)
  (is_led : string) :
  preserves (Inv sends_demo_frame any_counter) (main w fuel mode bit_rate is_led).
Proof.
  unfold main.
  destruct (negb (in_list bit_rate valid_bit_rates)); [keep |].
  apply preserves_bind; [apply get_device_port_keeps | intros mgmt_port].
  apply preserves_bind; [apply get_device_port_keeps | intros vcan_port].
  destruct mgmt_port as [mgmt |]; [| keep].
  destruct vcan_port as [vcan |]; [| keep].
  destruct (negb (truthy mgmt) || negb (truthy vcan)); [keep |].
  unfold serial_Serial, port_write, time_sleep, port_inWaiting, port_read,
    can_Bus, procedure.
  apply preserves_bind; [keep | intros port].
  do 9 (apply preserves_bind;
        [ first [ apply configure_can_keeps | apply set_led_status_keeps | keep ]
        | intros ? ]).
  intros s [Ht _]. unfold bind at 1. unfold reset_globals.
  assert (H1 : Inv sends_demo_frame in_range (mkState (tick s) counter0 (trace s)))
    by (split; [exact Ht | cbn; unfold in_range; cbn; lia]).
  destruct (run_session_keeps w fuel mode port (FlagStr is_led) _ H1) as [Ht2 _].
  split; [exact Ht2 | exact Logic.I].
Qed.

(** C8: every frame [main] hands to [bus.send] has arbitration id
    [0x123], the extended-id flag set, and the bytes of [K800_<d>] for
    one digit [d] as payload. *)
Theorem sent_frames_are_demo_frames (w : World) (fuel : nat)
  (mode : option string) (bit_rate : Z) (is_led : string)
  (m : Message) (timeout_ms : Z) (a : Answer) :
  In (Call (BusSend m timeout_ms) a)
     (trace (snd (main w fuel mode bit_rate is_led state0))) ->
  arbitration_id m = 0x123
  /\ is_extended_id m = true
  /\ exists d : nat, (d <= 9)%nat /\ data m = digit_payload d.
Proof.
  intros Hin.
  assert (H0 : Inv sends_demo_frame any_counter state0)
    by (split; [constructor | exact Logic.I]).
  destruct (main_keeps w fuel mode bit_rate is_led state0 H0) as [Ht _].
  rewrite Forall_forall in Ht. exact (Ht _ Hin).
Qed.

Lemma sent_frames_are_demo_frames_witness :
  In (Call (BusSend first_demo_frame 200) Done)
     (trace (snd (main quiet_world 2 (Some "s") 500 "off" state0)))
  /\ arbitration_id first_demo_frame = 0x123.
Proof.
  assert (Hin : In (Call (BusSend first_demo_frame 200) Done)
                   (trace (snd (main quiet_world 2 (Some "s") 500 "off" state0)))).
  { vm_compute. repeat (first [left; reflexivity | right]). }
  split; [exact Hin |].
  apply (sent_frames_are_demo_frames quiet_world 2 (Some "s") 500 "off"
           first_demo_frame 200 Done Hin).
Defined.

(** ** The send loop *)

Lemma send_pass (w : World) (mode : option string) (s : State) :
  is_send mode = true ->
  calm w (tick s) 3 ->
  loop_body w mode s
  = (Val tt,
     mkState (3 + tick s) (snd (inc_dec_default (globals s)))
             (trace s ++ send_events w (tick s) (fst (inc_dec_default (globals s))))).
Proof.
  intros Hmode H. unfold loop_body. rewrite Hmode.
  unfold bind at 1. unfold inc_dec_data_string.
  destruct (inc_dec_default (globals s)) as [text c]. cbn [fst snd].
  unfold datetime_now_timestamp, bus_send, time_sleep, procedure.
  do 2 run_call H.
  rewrite (bind_val _ _ _ _ _ (print_extend _ _)).
  run_call H.
  repeat rewrite extend_extend.
  unfold extend, send_events. cbn [tick globals trace Nat.add app]. reflexivity.
Qed.

Lemma bus_sends_app (xs ys : list Event) :
  bus_sends (xs ++ ys) = (bus_sends xs ++ bus_sends ys)%list.
Proof. unfold bus_sends. apply flat_map_app. Qed.

Lemma sent_payloads_app (xs ys : list Event) :
  sent_payloads (xs ++ ys) = (sent_payloads xs ++ sent_payloads ys)%list.
Proof. unfold sent_payloads. rewrite bus_sends_app. apply map_app. Qed.

Lemma text_of_call (j : nat) :
  fst (inc_dec_default (after_calls j counter0)) = "K800_" ++ str_int (triangle (S j)).
Proof.
  rewrite inc_dec_text.
  destruct (after_calls_on_wave (S j)) as (Hv & _).
  cbn [after_calls] in Hv. now rewrite Hv.
Qed.

Lemma send_loop_payloads (w : World) (mode : option string) (n : nat) :
  is_send mode = true ->
  forall (s : State) (j : nat),
    calm w (tick s) (3 * n) ->
    globals s = after_calls j counter0 ->
    fst (session_loop w n mode s) = Running
    /\ sent_payloads (trace (snd (session_loop w n mode s)))
       = (sent_payloads (trace s) ++ map loop_payload (seq j n))%list.
Proof.
  intros Hmode. unfold session_loop.
  induction n as [| n IH]; intros s j Hcalm Hg.
  - cbn. now rewrite app_nil_r.
  - cbn [forever].
    assert (H3 : calm w (tick s) 3) by (intros k Hk; apply Hcalm; lia).
    rewrite (bind_val _ _ _ _ _ (send_pass w mode s Hmode H3)).
    match goal with |- context [forever n _ ?s1] => set (s' := s1) end.
    assert (Hcalm' : calm w (tick s') (3 * n))
      by (intros k Hk; apply Hcalm; cbn in Hk; lia).
    assert (Hg' : globals s' = after_calls (S j) counter0)
      by (cbn; now rewrite Hg).
    destruct (IH s' (S j) Hcalm' Hg') as [Hr Hp].
    split; [exact Hr |].
    rewrite Hp. unfold s' at 1. cbn [trace].
    rewrite sent_payloads_app, Hg, text_of_call.
    cbn [seq map]. rewrite <- app_assoc. reflexivity.
Qed.

(** C2 (as the code runs): in send mode, from [number = 0] ascending and
    with no call raising, the first [n] passes of the loop send the
    payloads K800_1, ..., K800_9, K800_8, ..., K800_0, K800_1, ...: the
    [i]-th payload (from 0) is the text of [triangle (i+1)], so the first
    one is K800_1, and the loop is still running after any [n] passes. *)
Theorem send_loop_payload_sequence (w : World) (mode : option string)
  (n k : nat) :
  is_send mode = true ->
  calm w k (3 * n) ->
  fst (session_loop w n mode (mkState k counter0 [])) = Running
  /\ sent_payloads (trace (snd (session_loop w n mode (mkState k counter0 []))))
     = map loop_payload (seq 0 n)
  /\ map loop_payload (seq 0 19)
     = map encode ["K800_1"; "K800_2"; "K800_3"; "K800_4"; "K800_5"; "K800_6";
                   "K800_7"; "K800_8"; "K800_9"; "K800_8"; "K800_7"; "K800_6";
                   "K800_5"; "K800_4"; "K800_3"; "K800_2"; "K800_1"; "K800_0";
                   "K800_1"].
Proof.
  intros Hmode Hcalm.
  destruct (send_loop_payloads w mode n Hmode (mkState k counter0 []) 0 Hcalm eq_refl)
    as [Hr Hp].
  split; [exact Hr |]. split; [exact Hp | reflexivity].
Qed.

Lemma send_loop_payload_sequence_witness :
  is_send (Some "s") = true
  /\ calm quiet_world 0 (3 * 3)
  /\ sent_payloads (trace (snd (session_loop quiet_world 3 (Some "s") (mkState 0 counter0 []))))
     = map encode ["K800_1"; "K800_2"; "K800_3"].
Proof.
  split; [reflexivity |]. split; [apply calm_quiet_world |].
  destruct (send_loop_payload_sequence quiet_world (Some "s") 3 0 eq_refl
              (calm_quiet_world 0 (3 * 3))) as (_ & Hp & _).
  rewrite Hp. reflexivity.
Defined.

(** C2 (as described): the first payload sent is not K800_0. *)
Lemma first_payload_is_not_K800_0 :
  sent_payloads (trace (snd (session_loop quiet_world 1 (Some "s") (mkState 0 counter0 []))))
  = [encode "K800_1"]
  /\ sent_payloads (trace (snd (session_loop quiet_world 1 (Some "s") (mkState 0 counter0 []))))
     <> map described_payload (seq 0 1)
  /\ described_payload 0 = encode "K800_0".
Proof.
  split; [reflexivity |]. split; [| reflexivity].
  vm_compute. discriminate.
Qed.

(** ** The receive loop *)

Lemma frames_delivered_app (xs ys : list Event) :
  frames_delivered (xs ++ ys) = (frames_delivered xs ++ frames_delivered ys)%list.
Proof. unfold frames_delivered. apply flat_map_app. Qed.

Lemma frames_logged_app (xs ys : list Event) :
  frames_logged (xs ++ ys) = (frames_logged xs ++ frames_logged ys)%list.
Proof. unfold frames_logged. apply flat_map_app. Qed.

Lemma receive_pass_keeps (w : World) (mode : option string) :
  is_send mode = false -> preserves receive_only (loop_body w mode).
Proof.
  intros Hmode s (Hs & Hl & Ha). unfold loop_body. rewrite Hmode.
  unfold bind, bus_recv, call, print, receive_only.
  destruct (fault w (tick s)) as [e |]; cbn [snd trace advance record].
  - rewrite bus_sends_app, frames_logged_app, frames_delivered_app, Hs, Hl.
    repeat split. apply Forall_app. split; [exact Ha | repeat constructor].
  - rewrite !bus_sends_app, !frames_logged_app, !frames_delivered_app, Hs, Hl.
    cbn. repeat split.
    + now rewrite !app_nil_r.
    + repeat (apply Forall_app; split); try exact Ha; repeat constructor.
Qed.

(** C7: in receive mode ([mode] is not ['s']) the loop, however long it
    runs and whatever the bus does, never calls [bus.send]; the frames it
    prints are exactly the frames [bus.recv] returned, in the same order,
    whatever their arbitration id; and it makes no other call. *)
Theorem receive_loop_logs_every_frame (w : World) (fuel : nat)
  (mode : option string) (k : nat) (c : Counter) :
  is_send mode = false ->
  let tr := trace (snd (session_loop w fuel mode (mkState k c []))) in
  bus_sends tr = []
  /\ frames_logged tr = frames_delivered tr
  /\ Forall receive_event tr.
Proof.
  intros Hmode. unfold session_loop.
  apply (preserves_forever receive_only fuel (loop_body w mode)
           (receive_pass_keeps w mode Hmode) (mkState k c [])).
  repeat split. constructor.
Qed.

Lemma receive_loop_logs_every_frame_witness :
  is_send (Some "r") = false
  /\ frames_logged (trace (snd (session_loop quiet_world 2 (Some "r") (mkState 0 counter0 []))))
     = [foreign_frame 0; foreign_frame 1].
Proof.
  split; [reflexivity |].
  destruct (receive_loop_logs_every_frame quiet_world 2 (Some "r") 0 counter0 eq_refl)
    as (_ & Hl & _).
  rewrite Hl. reflexivity.
Defined.

(** ** Teardown *)

Lemma set_led_status_skipped (w : World) (port : option Serial) (is_led : Flag)
  (status : bool) (s : State) :
  flag_is_off is_led = true ->
  set_led_status w port is_led status s = (Val tt, s).
Proof. intros H. unfold set_led_status. rewrite H. reflexivity. Qed.

Lemma teardown_runs (w : World) (port : Serial) (is_led : Flag) (s : State) :
  calm w (tick s) (teardown_count is_led) ->
  teardown w port is_led s
  = (Val tt, extend s (teardown_count is_led) (teardown_events is_led)).
Proof.
  unfold teardown_count, teardown_events, teardown.
  unfold time_sleep, port_reset_input_buffer, port_reset_output_buffer,
    bus_shutdown, port_close, procedure.
  destruct (flag_is_off is_led) eqn:Hflag; intros H.
  - do 3 run_call H.
    rewrite (bind_val _ _ _ _ _ (set_led_status_skipped w _ is_led false _ Hflag)).
    do 2 run_call H.
    repeat rewrite extend_extend. reflexivity.
  - do 3 run_call H.
    match goal with
    | |- context [bind (set_led_status w ?p ?f ?st) ?k ?s0] =>
        rewrite (bind_val (set_led_status w p f st) k s0 _ _
                   (set_led_status_runs w port f st s0 Hflag
                      ltac:(intros i Hi; apply H; cbn in Hi; lia)))
    end.
    do 2 run_call H.
    repeat rewrite extend_extend. reflexivity.
Qed.

Lemma handler_runs (e : exn) (s : State) :
  match on_exception e with
  | Some h => h s
  | None => (Exc e, s)
  end = (after_handler e, extend s 0 (handler_events e)).
Proof.
  destruct e as [| msg | code]; cbn [on_exception after_handler handler_events].
  - apply print_extend.
  - apply print_extend.
  - now rewrite extend_0_nil.
Qed.

(** C6 (as described): the receive loop raises after one frame, the
    first buffer reset of the teardown raises too, and neither
    [bus.shutdown()] nor [port.close()] is ever called. *)
Lemma teardown_can_stop_early :
  fst (session_loop unplugged_world 3 (Some "r") state0)
  = Exc (Exception "device disconnected")
  /\ frames_delivered (trace (snd (session_loop unplugged_world 3 (Some "r") state0)))
     = [foreign_frame 0]
  /\ fst (run_session unplugged_world 3 (Some "r") (SerialOn "/dev/ttyACM0")
            (FlagStr "on") state0)
     = Exc (Exception "port is not open")
  /\ existsb is_shutdown_call
       (trace (snd (run_session unplugged_world 3 (Some "r") (SerialOn "/dev/ttyACM0")
                      (FlagStr "on") state0))) = false
  /\ existsb is_close_call
       (trace (snd (run_session unplugged_world 3 (Some "r") (SerialOn "/dev/ttyACM0")
                      (FlagStr "on") state0))) = false.
Proof. repeat split. Qed.

(** * Further properties *)

(** ** The counter with any bounds *)

Lemma inc_dec_keeps_bounds (low high : Z) (c : Counter) :
  low < high ->
  low <= number c <= high ->
  low <= number (snd (inc_dec low high c)) <= high.
Proof.
  destruct c as [v up]. unfold inc_dec, turn. cbn.
  intros Hlh H.
  destruct (Z.eqb_spec v low) as [El | Nl]; [lia |].
  destruct (Z.eqb_spec v high) as [Eh | Nh]; [lia |].
  destruct up; lia.
Qed.

(** X1: for any bounds [low < high], a counter that starts within
    [low, high] stays there, whatever the direction flag says and
    however many calls are made. *)
Theorem counter_stays_within_any_bounds (low high : Z) (c : Counter) (n : nat) :
  low < high ->
  low <= number c <= high ->
  low <= number (after_calls_with low high n c) <= high.
Proof.
  intros Hlh H. induction n as [| n IH]; cbn [after_calls_with].
  - exact H.
  - now apply inc_dec_keeps_bounds.
Qed.

Lemma counter_stays_within_any_bounds_witness :
  -3 < 2
  /\ -3 <= number (mkCounter 2 true) <= 2
  /\ -3 <= number (after_calls_with (-3) 2 7 (mkCounter 2 true)) <= 2.
Proof.
  assert (H1 : -3 < 2) by lia.
  assert (H2 : -3 <= number (mkCounter 2 true) <= 2) by (cbn; lia).
  split; [exact H1 |]. split; [exact H2 |].
  apply (counter_stays_within_any_bounds (-3) 2 (mkCounter 2 true) 7 H1 H2).
Defined.

Lemma counter_runs_away (low high : Z) (c : Counter) (n : nat) :
  (Z.max low high < number c /\ is_increment c = true)
  \/ (number c < Z.min low high /\ is_increment c = false) ->
  number (after_calls_with low high n c)
  = number c + (if is_increment c then Z.of_nat n else - Z.of_nat n)
  /\ is_increment (after_calls_with low high n c) = is_increment c.
Proof.
  intros H. induction n as [| n [IHv IHd]].
  - cbn [after_calls_with]. split; [| reflexivity].
    destruct (is_increment c); cbn; lia.
  - cbn [after_calls_with].
    destruct (after_calls_with low high n c) as [v up].
    cbn [number is_increment] in IHv, IHd. subst up.
    unfold inc_dec, turn. cbn [number is_increment fst snd].
    destruct (Z.eqb_spec v low) as [El | Nl].
    { exfalso. destruct H as [[Hm Hd] | [Hm Hd]]; rewrite Hd in IHv; lia. }
    destruct (Z.eqb_spec v high) as [Eh | Nh].
    { exfalso. destruct H as [[Hm Hd] | [Hm Hd]]; rewrite Hd in IHv; lia. }
    split; [| reflexivity].
    destruct (is_increment c); lia.
Qed.

(** X2: the bounds only turn the counter round when it reaches them.
    A counter that is above both bounds and ascending, or below both and
    descending, moves away by one at every call and never comes back. *)
Theorem counter_outside_bounds_runs_away (low high : Z) (c : Counter) (n : nat) :
  (Z.max low high < number c /\ is_increment c = true)
  \/ (number c < Z.min low high /\ is_increment c = false) ->
  number (after_calls_with low high n c)
  = number c + (if is_increment c then Z.of_nat n else - Z.of_nat n)
  /\ is_increment (after_calls_with low high n c) = is_increment c.
Proof. exact (counter_runs_away low high c n). Qed.

Lemma counter_outside_bounds_runs_away_witness :
  ((Z.max 0 9 < number (mkCounter 10 true) /\ is_increment (mkCounter 10 true) = true)
   \/ (number (mkCounter 10 true) < Z.min 0 9
       /\ is_increment (mkCounter 10 true) = false))
  /\ number (after_calls_with 0 9 5 (mkCounter 10 true)) = 15.
Proof.
  assert (H : (Z.max 0 9 < number (mkCounter 10 true)
               /\ is_increment (mkCounter 10 true) = true)
              \/ (number (mkCounter 10 true) < Z.min 0 9
                  /\ is_increment (mkCounter 10 true) = false))
    by (left; split; [cbn; lia | reflexivity]).
  split; [exact H |].
  destruct (counter_outside_bounds_runs_away 0 9 (mkCounter 10 true) 5 H) as [E _].
  rewrite E. reflexivity.
Defined.

(** X3: with equal bounds the counter does not oscillate: from
    [number = low = high] every call adds one, for ever. *)
Theorem counter_with_equal_bounds_escapes (b : Z) (up : bool) (n : nat) :
  number (after_calls_with b b n (mkCounter b up)) = b + Z.of_nat n.
Proof.
  destruct n as [| n]; [cbn; lia |].
  assert (E1 : after_calls_with b b 1 (mkCounter b up) = mkCounter (b + 1) true).
  { cbn. unfold inc_dec, turn. cbn. now rewrite Z.eqb_refl. }
  assert (G : forall k c, after_calls_with b b (S k) c
                          = after_calls_with b b k (after_calls_with b b 1 c)).
  { intros k c. induction k as [| k IH]; [reflexivity |].
    cbn [after_calls_with] in *. now rewrite IH. }
  rewrite G, E1.
  destruct (counter_runs_away b b (mkCounter (b + 1) true) n) as [E _].
  { left. cbn. split; [lia | reflexivity]. }
  rewrite E. cbn. lia.
Qed.

Lemma triangle_period (n : nat) : triangle (n + 18) = triangle n.
Proof.
  unfold triangle.
  replace ((n + 18) mod 18)%nat with (n mod 18)%nat; [reflexivity |].
  pose proof (Nat.div_mod_eq n 18) as E.
  pose proof (Nat.mod_upper_bound n 18 ltac:(discriminate)) as B.
  apply Nat.mod_unique with (q := S (n / 18)); lia.
Qed.

(** X4: from [number = 0], ascending, the counter has period 18: the
    call number [n + 18] returns the same text as the call number [n],
    and leaves the same value. *)
Theorem counter_has_period_18 (n : nat) :
  number (after_calls (n + 18) counter0) = number (after_calls n counter0)
  /\ nth_call (S n + 18) counter0 = nth_call (S n) counter0.
Proof.
  split.
  - destruct (after_calls_on_wave (n + 18)) as (E1 & _).
    destruct (after_calls_on_wave n) as (E2 & _).
    rewrite E1, E2. apply triangle_period.
  - unfold nth_call. cbn [Nat.add Nat.pred].
    rewrite !text_of_call.
    replace (S (n + 18)) with (S n + 18)%nat by lia.
    now rewrite triangle_period.
Qed.

(** ** The port locator with a filter *)

Lemma In_insert_sorted {A} (lt : A -> A -> bool) (x y : A) (l : list A) :
  In y (insert_sorted lt x l) <-> y = x \/ In y l.
Proof.
  induction l as [| z t IH]; cbn [insert_sorted].
  - cbn. intuition congruence.
  - destruct (lt x z); cbn; [intuition congruence |].
    rewrite IH. cbn. intuition congruence.
Qed.

Lemma In_fold_insert {A} (lt : A -> A -> bool) (y : A) (l acc : list A) :
  In y (fold_left (fun acc x => insert_sorted lt x acc) l acc) <-> In y l \/ In y acc.
Proof.
  revert acc. induction l as [| x t IH]; intros acc; cbn [fold_left].
  - cbn. intuition.
  - rewrite IH, In_insert_sorted. cbn. intuition congruence.
Qed.

Lemma In_sorted {A} (lt : A -> A -> bool) (y : A) (l : list A) :
  In y (sorted lt l) <-> In y l.
Proof. unfold sorted. rewrite In_fold_insert. cbn. intuition. Qed.

Lemma scan_ports_sound (dev_id : string) (location_filter : option string)
  (ports : list ListPortInfo) (s s1 : State) (path : string) :
  scan_ports dev_id location_filter ports s = (Val (Some path), s1) ->
  exists (port : ListPortInfo) (loc ploc : string),
    In port ports /\ device port = path
    /\ contains dev_id (hwid port) = true
    /\ location_filter = Some loc /\ loc <> EmptyString
    /\ location port = Some ploc /\ contains loc ploc = true.
Proof.
  induction ports as [| port rest IH]; cbn [scan_ports]; [discriminate |].
  assert (Hrest : scan_ports dev_id location_filter rest s = (Val (Some path), s1) ->
                  exists (port0 : ListPortInfo) (loc ploc : string),
                    In port0 (port :: rest) /\ device port0 = path
                    /\ contains dev_id (hwid port0) = true
                    /\ location_filter = Some loc /\ loc <> EmptyString
                    /\ location port0 = Some ploc /\ contains loc ploc = true).
  { intros H. destruct (IH H) as (p & loc & ploc & Hin & Hrest).
    exists p, loc, ploc. split; [now right | exact Hrest]. }
  destruct (contains dev_id (hwid port)) eqn:Ehw; [| exact Hrest].
  destruct location_filter as [loc |]; [| exact Hrest].
  destruct (truthy loc) eqn:Etr; [| exact Hrest].
  destruct (location port) as [ploc |] eqn:Eloc; [| discriminate].
  destruct (contains loc ploc) eqn:Ec; [| exact Hrest].
  unfold bind, print, ret. cbn. intros H. inversion H; subst.
  exists port, loc, ploc. repeat split; try assumption; try reflexivity.
  - now left.
  - intros ->. discriminate Etr.
Qed.

Lemma get_device_port_sound (w : World) (dev_id : string)
  (location_filter : option string) (s s1 : State) (path : string) :
  get_device_port w dev_id location_filter s = (Val (Some path), s1) ->
  exists (port : ListPortInfo) (loc ploc : string),
    In port (attached w (tick s)) /\ device port = path
    /\ contains dev_id (hwid port) = true
    /\ location_filter = Some loc /\ loc <> EmptyString
    /\ location port = Some ploc /\ contains loc ploc = true.
Proof.
  unfold get_device_port, comports, bind, call.
  destruct (fault w (tick s)) as [e |]; [discriminate |].
  intros H. apply scan_ports_sound in H.
  destruct H as (port & loc & ploc & Hin & Hrest).
  exists port, loc, ploc. split; [| exact Hrest].
  now apply In_sorted in Hin.
Qed.

(** X5: a path returned by [get_device_port] is the device path of a
    port that was attached when the ports were enumerated, whose
    hardware id contains the signature and whose location contains the
    (non-empty) filter. *)
Theorem get_device_port_result_matches (w : World) (dev_id : string)
  (location_filter : option string) (s s1 : State) (path : string) :
  get_device_port w dev_id location_filter s = (Val (Some path), s1) ->
  exists (port : ListPortInfo) (loc ploc : string),
    In port (attached w (tick s)) /\ device port = path
    /\ contains dev_id (hwid port) = true
    /\ location_filter = Some loc /\ loc <> EmptyString
    /\ location port = Some ploc /\ contains loc ploc = true.
Proof. exact (get_device_port_sound w dev_id location_filter s s1 path). Qed.

Lemma get_device_port_result_matches_witness :
  fst (get_device_port quiet_world MCU_VID_PID (Some ".2") state0)
  = Val (Some "/dev/ttyACM2")
  /\ exists (port : ListPortInfo) (loc ploc : string),
       In port (attached quiet_world (tick state0)) /\ device port = "/dev/ttyACM2"
       /\ contains MCU_VID_PID (hwid port) = true
       /\ Some ".2" = Some loc /\ loc <> EmptyString
       /\ location port = Some ploc /\ contains loc ploc = true.
Proof.
  split; [reflexivity |].
  apply (get_device_port_result_matches quiet_world MCU_VID_PID (Some ".2") state0
           (snd (get_device_port quiet_world MCU_VID_PID (Some ".2") state0))
           "/dev/ttyACM2" eq_refl).
Defined.

Lemma scan_ports_stops (dev_id loc : string) (ports : list ListPortInfo) (s : State) :
  truthy loc = true ->
  scan_ports dev_id (Some loc) ports s
  = match find (stops_scan dev_id loc) ports with
    | None => (Val None, s)
    | Some p =>
        match location p with
        | None => (Exc (Exception "TypeError"), s)
        | Some _ => (Val (Some (device p)), extend s 0 (port_report p))
        end
    end.
Proof.
  intros Htr. induction ports as [| port rest IH]; cbn [scan_ports find]; [reflexivity |].
  unfold stops_scan at 1. rewrite Htr.
  destruct (contains dev_id (hwid port)); cbn [andb]; [| exact IH].
  destruct (location port) as [ploc |] eqn:Eloc; [| now rewrite Eloc].
  destruct (contains loc ploc); [| exact IH].
  rewrite Eloc. unfold port_report. rewrite Eloc.
  unfold bind, print, ret, record, extend. cbn.
  now rewrite <- app_assoc.
Qed.

(** X6: with a non-empty filter, and when the enumeration does not
    raise, [get_device_port] walks the ports in sorted order up to the
    first one whose hardware id contains the signature and whose
    location contains the filter or is missing.  If there is none it
    returns [None] and prints nothing; if that port has a location it
    prints the two report lines and returns its path; if its location is
    missing the membership test raises [TypeError]. *)
Theorem get_device_port_first_match (w : World) (dev_id loc : string) (s : State) :
  fault w (tick s) = None ->
  loc <> EmptyString ->
  let ports := attached w (tick s) in
  get_device_port w dev_id (Some loc) s
  = match find (stops_scan dev_id loc) (sorted (port_lt w) ports) with
    | None => (Val None, extend s 1 [Call Comports (Ports ports)])
    | Some p =>
        match location p with
        | None => (Exc (Exception "TypeError"), extend s 1 [Call Comports (Ports ports)])
        | Some _ =>
            (Val (Some (device p)),
             extend s 1 (Call Comports (Ports ports) :: port_report p))
        end
    end.
Proof.
  intros Hf Hloc ports.
  assert (Htr : truthy loc = true) by (destruct loc; [contradiction | reflexivity]).
  unfold get_device_port, comports.
  rewrite (bind_val _ _ _ _ _ (call_calm w Comports (attached w) Ports s Hf)).
  rewrite (scan_ports_stops _ _ _ _ Htr). fold ports.
  destruct (find (stops_scan dev_id loc) (sorted (port_lt w) ports)) as [p |];
    [| reflexivity].
  destruct (location p); [| reflexivity].
  now rewrite extend_extend.
Qed.

Lemma get_device_port_first_match_witness :
  fault quiet_world (tick state0) = None
  /\ ".0" <> EmptyString
  /\ fst (get_device_port quiet_world MCU_VID_PID (Some ".0") state0)
     = Val (Some "/dev/ttyACM0")
  /\ fst (get_device_port (world_of [uart_port; bare_port]) MCU_VID_PID (Some ".0") state0)
     = Exc (Exception "TypeError")
  /\ fst (get_device_port (world_of [uart_port]) MCU_VID_PID (Some ".0") state0)
     = Val None.
Proof.
  assert (Hloc : ".0" <> EmptyString) by discriminate.
  split; [reflexivity |]. split; [exact Hloc |].
  rewrite (get_device_port_first_match quiet_world MCU_VID_PID ".0" state0 eq_refl Hloc).
  rewrite (get_device_port_first_match (world_of [uart_port; bare_port]) MCU_VID_PID ".0"
             state0 eq_refl Hloc).
  rewrite (get_device_port_first_match (world_of [uart_port]) MCU_VID_PID ".0"
             state0 eq_refl Hloc).
  repeat split.
Defined.

(** X7: an empty filter string counts as no filter at all: the scan
    never returns a path, whatever is attached. *)
Theorem get_device_port_empty_filter (w : World) (dev_id : string) (s : State) :
  fst (get_device_port w dev_id (Some EmptyString) s)
  = match fault w (tick s) with Some e => Exc e | None => Val None end.
Proof.
  assert (E : forall ports s0,
             scan_ports dev_id (Some EmptyString) ports s0 = (Val None, s0)).
  { intros ports s0. induction ports as [| port rest IH]; cbn [scan_ports]; [reflexivity |].
    destruct (contains dev_id (hwid port)); exact IH. }
  unfold get_device_port, comports, bind, call.
  destruct (fault w (tick s)) as [e |]; [reflexivity |].
  now rewrite E.
Qed.

(** ** Reasoning about traces *)

Lemma triple_of_preserves {A} (I : State -> Prop) (m : M A) :
  preserves I m -> triple I m (fun _ => I) I.
Proof.
  intros H s Hs. specialize (H s Hs).
  destruct (m s) as [[a | e |] s1]; exact H.
Qed.

Lemma triple_with_value {A} (I : State -> Prop) (m : M A) (Q : A -> State -> Prop) :
  preserves I m ->
  (forall s a s1, I s -> m s = (Val a, s1) -> Q a s1) ->
  triple I m (fun a s1 => I s1 /\ Q a s1) I.
Proof.
  intros H HQ s Hs. specialize (H s Hs). specialize (HQ s).
  destruct (m s) as [[a | e |] s1]; cbn in H; try exact H.
  split; [exact H | now apply (HQ a s1)].
Qed.

Lemma triple_bind {A B} (P : State -> Prop) (m : M A) (Q : A -> State -> Prop)
  (k : A -> M B) (R : B -> State -> Prop) (X : State -> Prop) :
  triple P m Q X -> (forall a, triple (Q a) (k a) R X) -> triple P (bind m k) R X.
Proof.
  intros Hm Hk s Hs. unfold bind. specialize (Hm s Hs).
  destruct (m s) as [[a | e |] s1]; try exact Hm.
  exact (Hk a s1 Hm).
Qed.

Lemma triple_weaken {A} (P P' : State -> Prop) (m : M A)
  (Q Q' : A -> State -> Prop) (X X' : State -> Prop) :
  triple P m Q X ->
  (forall s, P' s -> P s) ->
  (forall a s, Q a s -> Q' a s) ->
  (forall s, X s -> X' s) ->
  triple P' m Q' X'.
Proof.
  intros H HP HQ HX s Hs. specialize (H s (HP s Hs)).
  destruct (m s) as [[a | e |] s1]; auto.
Qed.

Lemma triple_call {A} (w : World) (P : State -> Prop) (o : Op) (value : nat -> A)
  (show : A -> Answer) (Q : A -> State -> Prop) (X : State -> Prop) :
  (forall s e, P s -> X (extend s 1 [Call o (Raised e)])) ->
  (forall s, P s -> Q (value (tick s)) (extend s 1 [Call o (show (value (tick s)))])) ->
  triple P (call w o value show) Q X.
Proof.
  intros HX HQ s Hs. unfold call.
  destruct (fault w (tick s)) as [e |].
  - exact (HX s e Hs).
  - exact (HQ s Hs).
Qed.

Lemma triple_try_finally {A} (P R : State -> Prop) (body : M A) (fin : M unit)
  (Q : State -> Prop) (X : State -> Prop) :
  triple P body (fun _ => R) R ->
  triple R fin (fun _ => Q) X ->
  (forall s, R s -> X s) ->
  (forall s, Q s -> X s) ->
  triple P (try_finally body fin) (fun _ => Q) X.
Proof.
  intros Hb Hf HR HQ s Hs. unfold try_finally. specialize (Hb s Hs).
  destruct (body s) as [[a | e |] s1].
  - specialize (Hf s1 Hb). destruct (fin s1) as [[u | e |] s2]; exact Hf.
  - specialize (Hf s1 Hb). destruct (fin s1) as [[u | e' |] s2]; auto.
  - now apply HR.
Qed.

Lemma preserves_for_each_in {A} (I : State -> Prop) (xs : list A)
  (body : A -> M unit) :
  (forall x, In x xs -> preserves I (body x)) -> preserves I (for_each xs body).
Proof.
  induction xs as [| x t IH]; intros Hb; cbn [for_each].
  - apply preserves_ret.
  - apply preserves_bind; [apply Hb; now left | intros _].
    apply IH. intros y Hy. apply Hb. now right.
Qed.

Section TraceClosed.

Variable w : World.
Variable K : Event -> Prop.
Variable T : list Event -> Prop.
Hypothesis T_closed : closed_under K T.

Lemma closed_print (p : Printed) :
  K (Output p) -> preserves (on_trace T) (print p).
Proof. intros Hp s H. exact (T_closed _ _ Hp H). Qed.

Lemma closed_call {A} (o : Op) (value : nat -> A) (show : A -> Answer) :
  (forall a, K (Call o a)) -> preserves (on_trace T) (call w o value show).
Proof.
  intros Ho s H. unfold call.
  destruct (fault w (tick s)) as [e |]; exact (T_closed _ _ (Ho _) H).
Qed.

Lemma closed_inc_dec_data_string : preserves (on_trace T) inc_dec_data_string.
Proof.
  intros s H. unfold inc_dec_data_string.
  destruct (inc_dec_default (globals s)). exact H.
Qed.

Lemma closed_reset_globals : preserves (on_trace T) reset_globals.
Proof. intros s H. exact H. Qed.

End TraceClosed.

(** One step of a proof that a piece of the script keeps a property of
    the trace; [HK] says which events the property survives. *)
Ltac closed_step HT HK :=
  first
    [ apply preserves_ret
    | apply preserves_raise
    | apply (closed_print _ _ HT); apply HK; cbn; auto
    | apply (closed_call _ _ _ HT); intros ?; apply HK; cbn; auto
    | apply closed_inc_dec_data_string
    | apply closed_reset_globals
    | apply preserves_bind; [| intros ?]
    | apply preserves_for_each; intros ? ].

Section Footprints.

Variable w : World.
Variable K : Event -> Prop.
Variable T : list Event -> Prop.
Hypothesis T_closed : closed_under K T.

Lemma closed_scan_ports (dev_id : string) (location_filter : option string)
  (ports : list ListPortInfo) :
  (forall ev, locator_event ev -> K ev) ->
  preserves (on_trace T) (scan_ports dev_id location_filter ports).
Proof.
  intros HK.
  induction ports as [| port rest IH]; cbn [scan_ports];
    [repeat closed_step T_closed HK |].
  destruct (contains dev_id (hwid port)); [| exact IH].
  destruct location_filter as [loc |]; [| exact IH].
  destruct (truthy loc); [| exact IH].
  destruct (location port) as [ploc |]; [| repeat closed_step T_closed HK].
  destruct (contains loc ploc); [repeat closed_step T_closed HK | exact IH].
Qed.

Lemma closed_get_device_port (dev_id : string) (location_filter : option string) :
  (forall ev, locator_event ev -> K ev) ->
  preserves (on_trace T) (get_device_port w dev_id location_filter).
Proof.
  intros HK. unfold get_device_port, comports.
  apply preserves_bind; [closed_step T_closed HK | intros ports].
  now apply closed_scan_ports.
Qed.

Lemma closed_configure_can (interface mode baud : string) :
  (forall ev, configure_event interface mode baud ev -> K ev) ->
  preserves (on_trace T) (configure_can w interface mode baud).
Proof.
  intros HK.
  unfold configure_can, port_write, time_sleep, port_inWaiting, port_read, procedure.
  do 6 (apply preserves_bind; [closed_step T_closed HK | intros ?]).
  destruct (decode _); closed_step T_closed HK.
Qed.

Lemma closed_set_led_status (port : option Serial) (is_led : Flag) (status : bool) :
  (flag_is_off is_led = false -> forall ev, led_event status ev -> K ev) ->
  preserves (on_trace T) (set_led_status w port is_led status).
Proof.
  intros HK. unfold set_led_status.
  destruct (flag_is_off is_led); cbn [orb]; [apply preserves_ret |].
  specialize (HK eq_refl).
  destruct (negb (truthy_port port)); [apply preserves_ret |].
  apply preserves_for_each_in. intros i Hi.
  apply in_seq in Hi. unfold LED_COUNT in Hi.
  unfold port_write, time_sleep, procedure.
  apply preserves_bind; [| intros ?];
    apply (closed_call _ _ _ T_closed); intros ?; apply HK; cbn; auto.
  exists i. split; [lia | reflexivity].
Qed.

Lemma closed_loop_body (mode : option string) :
  (forall ev, loop_event mode ev -> K ev) ->
  preserves (on_trace T) (loop_body w mode).
Proof.
  intros HK. unfold loop_body.
  destruct (is_send mode) eqn:Hmode.
  - unfold datetime_now_timestamp, bus_send, time_sleep, procedure.
    repeat closed_step T_closed HK; rewrite Hmode; auto.
  - unfold bus_recv.
    repeat closed_step T_closed HK; rewrite Hmode; auto.
Qed.

Lemma closed_teardown (port : Serial) (is_led : Flag) :
  (forall ev, teardown_event is_led ev -> K ev) ->
  preserves (on_trace T) (teardown w port is_led).
Proof.
  intros HK.
  unfold teardown, time_sleep, port_reset_input_buffer, port_reset_output_buffer,
    bus_shutdown, port_close, procedure.
  do 3 (apply preserves_bind; [closed_step T_closed HK | intros ?]).
  apply preserves_bind; [| intros ?; repeat closed_step T_closed HK].
  apply closed_set_led_status. intros Hflag ev Hev. apply HK.
  destruct ev as [o ans | p]; [destruct o |]; cbn in *; auto.
Qed.

Lemma closed_run_session (fuel : nat) (mode : option string) (port : Serial)
  (is_led : Flag) :
  (forall ev, session_event mode is_led ev -> K ev) ->
  preserves (on_trace T) (run_session w fuel mode port is_led).
Proof.
  intros HK. unfold run_session, session_loop.
  apply preserves_try_finally.
  - apply preserves_try_except.
    + apply preserves_forever. apply closed_loop_body.
      intros ev Hev. apply HK. now left.
    + intros e h Hh. destruct e as [| msg | code]; cbn in Hh; inversion Hh; subst;
        apply (closed_print _ _ T_closed); apply HK; right; right; exact Logic.I.
  - apply closed_teardown. intros ev Hev. apply HK. right. now left.
Qed.

End Footprints.

(** ** Everything [main] can do *)

Lemma Forall_closed (P : Event -> Prop) : closed_under P (Forall P).
Proof.
  intros tr ev Hev Htr. apply Forall_app. split; [exact Htr | now constructor].
Qed.

Lemma main_inventory (w : World) (fuel : nat) (mode : option string)
  (bit_rate : Z) (is_led : string) :
  preserves (on_trace (Forall (main_event mode bit_rate is_led)))
            (main w fuel mode bit_rate is_led).
Proof.
  pose proof (Forall_closed (main_event mode bit_rate is_led)) as HT.
  assert (HK : forall ev, main_event mode bit_rate is_led ev
                          -> main_event mode bit_rate is_led ev) by auto.
  assert (Hloc : forall ev, locator_event ev -> main_event mode bit_rate is_led ev).
  { intros [[] a | []]; cbn; auto; contradiction. }
  unfold main.
  destruct (negb (in_list bit_rate valid_bit_rates)); [repeat closed_step HT HK |].
  apply preserves_bind; [now apply (closed_get_device_port _ _ _ HT) | intros mgmt_port].
  apply preserves_bind; [now apply (closed_get_device_port _ _ _ HT) | intros vcan_port].
  destruct mgmt_port as [mgmt |]; [| repeat closed_step HT HK].
  destruct vcan_port as [vcan |]; [| repeat closed_step HT HK].
  destruct (negb (truthy mgmt) || negb (truthy vcan)); [repeat closed_step HT HK |].
  unfold serial_Serial, port_write, time_sleep, port_inWaiting, port_read,
    can_Bus, procedure.
  do 6 (apply preserves_bind; [closed_step HT HK | intros ?]).
  apply preserves_bind; [| intros ?].
  { apply (closed_configure_can _ _ _ HT).
    intros [[] ans | []]; cbn; auto; try contradiction.
    intros [-> | ->]; auto. }
  apply preserves_bind; [| intros ?].
  { apply (closed_set_led_status _ _ _ HT).
    cbn [flag_is_off]. intros Hflag [[] ans | []]; cbn; auto; try contradiction.
    intros (i & Hi & ->). right. right. right. split; [exact Hflag |].
    now exists i, true. }
  do 3 (apply preserves_bind; [closed_step HT HK | intros ?]).
  apply (closed_run_session _ _ _ HT).
  intros ev [Hev | [Hev | Hev]].
  - destruct ev as [[] ans | []]; cbn in *; auto; try contradiction.
    destruct Hev as [_ ->]. now left.
  - destruct ev as [[] ans | []]; cbn in *; auto; try contradiction.
    + destruct Hev as (Hflag & i & Hi & ->).
      right. right. right. split; [exact Hflag |]. now exists i, false.
    + destruct Hev as [-> | ->]; auto.
  - destruct ev as [[] ans | []]; cbn in *; auto; contradiction.
Qed.

Lemma main_events (w : World) (fuel : nat) (mode : option string)
  (bit_rate : Z) (is_led : string) (ev : Event) :
  In ev (trace (snd (main w fuel mode bit_rate is_led state0))) ->
  main_event mode bit_rate is_led ev.
Proof.
  intros Hin.
  assert (H : Forall (main_event mode bit_rate is_led)
                     (trace (snd (main w fuel mode bit_rate is_led state0))))
    by (apply (main_inventory w fuel mode bit_rate is_led state0); constructor).
  rewrite Forall_forall in H. exact (H ev Hin).
Qed.

(** X8: whatever happens, the only byte strings [main] ever writes to
    the management port are the empty line, the two configuration
    commands for [VCAN0] with the chosen bit-rate, and, unless the LED
    check is ['off'], the [dio set LED0 <i> <true|false>] lines for
    [i < 4]. *)
Theorem main_writes_only_its_commands (w : World) (fuel : nat)
  (mode : option string) (bit_rate : Z) (is_led : string)
  (bs : list byte) (a : Answer) :
  In (Call (PortWrite bs) a) (trace (snd (main w fuel mode bit_rate is_led state0))) ->
  bs = encode CRLF
  \/ bs = encode ("set can-mode VCAN0 slcan" ++ CRLF)
  \/ bs = encode ("set can-baudrate VCAN0 " ++ str_int bit_rate ++ CRLF)
  \/ (is_led <> "off"
      /\ exists (i : nat) (status : bool),
           (i < 4)%nat
           /\ bs = encode ("dio set LED0 " ++ str_int (Z.of_nat i) ++ " "
                           ++ (if status then "true" else "false") ++ CRLF)).
Proof.
  intros Hin. apply main_events in Hin. cbn in Hin.
  destruct Hin as [H | [H | [H | (Hflag & i & status & Hi & H)]]]; auto.
  right. right. right. split.
  - intros ->. discriminate Hflag.
  - exists i, status. split; [exact Hi |]. subst bs. destruct status; reflexivity.
Qed.

Lemma main_writes_only_its_commands_witness :
  In (Call (PortWrite (encode ("set can-mode VCAN0 slcan" ++ CRLF))) Done)
     (trace (snd (main quiet_world 1 (Some "r") 250 "off" state0)))
  /\ (encode ("set can-mode VCAN0 slcan" ++ CRLF) = encode CRLF
      \/ encode ("set can-mode VCAN0 slcan" ++ CRLF)
         = encode ("set can-mode VCAN0 slcan" ++ CRLF)
      \/ encode ("set can-mode VCAN0 slcan" ++ CRLF)
         = encode ("set can-baudrate VCAN0 " ++ str_int 250 ++ CRLF)
      \/ ("off" <> "off"
          /\ exists (i : nat) (status : bool),
               (i < 4)%nat
               /\ encode ("set can-mode VCAN0 slcan" ++ CRLF)
                  = encode ("dio set LED0 " ++ str_int (Z.of_nat i) ++ " "
                            ++ (if status then "true" else "false") ++ CRLF))).
Proof.
  assert (Hin : In (Call (PortWrite (encode ("set can-mode VCAN0 slcan" ++ CRLF))) Done)
                   (trace (snd (main quiet_world 1 (Some "r") 250 "off" state0)))).
  { vm_compute. repeat (first [left; reflexivity | right]). }
  split; [exact Hin |].
  apply (main_writes_only_its_commands quiet_world 1 (Some "r") 250 "off" _ Done Hin).
Defined.

(** X9: [main] uses the bus in one direction only.  Every [bus.send]
    (always with the 200 ms timeout) and every line [Sent: ...] happen
    in send mode; every [bus.recv] and every line [Received: ...]
    happen in any other mode. *)
Theorem main_bus_traffic_follows_mode (w : World) (fuel : nat)
  (mode : option string) (bit_rate : Z) (is_led : string) (ev : Event) :
  In ev (trace (snd (main w fuel mode bit_rate is_led state0))) ->
  match ev with
  | Call (BusSend _ timeout_ms) _ => mode = Some "s" /\ timeout_ms = 200
  | Output (Sent _) => mode = Some "s"
  | Call BusRecv _ => mode <> Some "s"
  | Output (Received _) => mode <> Some "s"
  | _ => True
  end.
Proof.
  intros Hin. apply main_events in Hin.
  assert (Ht : is_send mode = true -> mode = Some "s").
  { destruct mode as [m |]; cbn; [| discriminate].
    intros E. apply String.eqb_eq in E. now subst. }
  assert (Hf : is_send mode = false -> mode <> Some "s").
  { intros E ->. discriminate E. }
  destruct ev as [[] ans | []]; cbn in Hin; auto.
  destruct Hin as [E ->]. auto.
Qed.

Lemma main_bus_traffic_follows_mode_witness :
  In (Call BusRecv (Frame (foreign_frame 14)))
     (trace (snd (main quiet_world 1 (Some "r") 250 "off" state0)))
  /\ Some "r" <> Some "s".
Proof.
  assert (Hin : In (Call BusRecv (Frame (foreign_frame 14)))
                   (trace (snd (main quiet_world 1 (Some "r") 250 "off" state0)))).
  { vm_compute. repeat (first [left; reflexivity | right]). }
  split; [exact Hin |].
  apply (main_bus_traffic_follows_mode quiet_world 1 (Some "r") 250 "off"
           (Call BusRecv (Frame (foreign_frame 14))) Hin).
Defined.

(** ** Start-up without the device *)

Lemma in_list_true (x : Z) (xs : list Z) : In x xs -> in_list x xs = true.
Proof.
  intros H. unfold in_list. apply existsb_exists. exists x.
  split; [exact H | apply Z.eqb_refl].
Qed.

Lemma find_stops_scan_none (dev_id loc : string) (ports : list ListPortInfo) :
  (forall p, In p ports -> contains dev_id (hwid p) = false) ->
  find (stops_scan dev_id loc) ports = None.
Proof.
  intros H. induction ports as [| p rest IH]; cbn [find]; [reflexivity |].
  unfold stops_scan at 1. rewrite (H p (or_introl eq_refl)). cbn [andb].
  apply IH. intros q Hq. apply H. now right.
Qed.

Lemma get_device_port_no_signature (w : World) (dev_id loc : string) (s : State) :
  fault w (tick s) = None ->
  (forall p, In p (attached w (tick s)) -> contains dev_id (hwid p) = false) ->
  get_device_port w dev_id (Some loc) s
  = (Val None, extend s 1 [Call Comports (Ports (attached w (tick s)))]).
Proof.
  intros Hf Hno. unfold get_device_port, comports.
  rewrite (bind_val _ _ _ _ _ (call_calm w Comports (attached w) Ports s Hf)).
  destruct (truthy loc) eqn:Htr.
  - rewrite (scan_ports_stops _ _ _ _ Htr), find_stops_scan_none; [reflexivity |].
    intros p Hp. apply Hno. now apply In_sorted in Hp.
  - clear Hno. generalize (sorted (port_lt w) (attached w (tick s))) as ports.
    generalize (extend s 1 [Call Comports (Ports (attached w (tick s)))]) as s1.
    intros s1 ports. induction ports as [| p rest IH]; cbn [scan_ports]; [reflexivity |].
    rewrite Htr. destruct (contains dev_id (hwid p)); exact IH.
Qed.

(** X10: with an allowed bit-rate, when neither enumeration raises and
    no attached port carries the signature [353F:A101], [main] prints
    that the MCU was not found and leaves through [sys.exit(1)]: it has
    enumerated the ports twice and opened nothing. *)
Theorem main_without_device_exits (w : World) (fuel : nat)
  (mode : option string) (bit_rate : Z) (is_led : string) (s : State) :
  In bit_rate [10; 20; 50; 100; 125; 250; 500; 750; 1000] ->
  calm w (tick s) 2 ->
  (forall p, In p (attached w (tick s)) -> contains "353F:A101" (hwid p) = false) ->
  (forall p, In p (attached w (1 + tick s)) -> contains "353F:A101" (hwid p) = false) ->
  main w fuel mode bit_rate is_led s
  = (Exc (SystemExit 1),
     extend s 2
       [ Call Comports (Ports (attached w (tick s)));
         Call Comports (Ports (attached w (1 + tick s)));
         Output (Text "Error: K800 MCU not found. Please check configurations and connections.") ])
  /\ exit_status (fst (main w fuel mode bit_rate is_led s)) = Some 1.
Proof.
  intros Hrate Hcalm H0 H1.
  assert (E : main w fuel mode bit_rate is_led s
              = (Exc (SystemExit 1),
                 extend s 2
                   [ Call Comports (Ports (attached w (tick s)));
                     Call Comports (Ports (attached w (1 + tick s)));
                     Output (Text "Error: K800 MCU not found. Please check configurations and connections.") ])).
  { unfold main.
    change valid_bit_rates with [10; 20; 50; 100; 125; 250; 500; 750; 1000].
    rewrite (in_list_true _ _ Hrate). cbn [negb].
    rewrite (bind_val _ _ _ _ _
               (get_device_port_no_signature w MCU_VID_PID ".0" s
                  (Hcalm (tick s) ltac:(lia)) H0)).
    rewrite (bind_val _ _ _ _ _
               (get_device_port_no_signature w MCU_VID_PID ".2"
                  (extend s 1 [Call Comports (Ports (attached w (tick s)))])
                  (Hcalm (1 + tick s)%nat ltac:(lia)) H1)).
    rewrite (bind_val _ _ _ _ _ (print_extend _ _)).
    unfold raise. rewrite !extend_extend. reflexivity. }
  rewrite E. split; reflexivity.
Qed.

Lemma main_without_device_exits_witness :
  In 500 [10; 20; 50; 100; 125; 250; 500; 750; 1000]
  /\ calm (world_of [uart_port]) (tick state0) 2
  /\ exit_status (fst (main (world_of [uart_port]) 5 (Some "s") 500 "on" state0)) = Some 1.
Proof.
  assert (Hrate : In 500 [10; 20; 50; 100; 125; 250; 500; 750; 1000])
    by (cbn; tauto).
  assert (Hcalm : calm (world_of [uart_port]) (tick state0) 2)
    by (intros k _; reflexivity).
  assert (Hno : forall k p, In p (attached (world_of [uart_port]) k) ->
                            contains "353F:A101" (hwid p) = false).
  { intros k p [<- | []]. reflexivity. }
  split; [exact Hrate |]. split; [exact Hcalm |].
  apply (main_without_device_exits (world_of [uart_port]) 5 (Some "s") 500 "on" state0
           Hrate Hcalm (Hno _) (Hno _)).
Defined.

(** ** The loop: what is reported, and how it ends *)

Lemma triple_forever (I X : State -> Prop) (fuel : nat) (body : M unit)
  (Q : unit -> State -> Prop) :
  triple I body (fun _ => I) X ->
  (forall s, I s -> X s) ->
  triple I (forever fuel body) Q X.
Proof.
  intros Hb HI. induction fuel as [| fuel IH]; cbn [forever].
  - intros s Hs. now apply HI.
  - apply triple_bind with (Q := fun _ => I); [exact Hb | intros _; exact IH].
Qed.

Lemma frames_accepted_app (xs ys : list Event) :
  frames_accepted (xs ++ ys) = (frames_accepted xs ++ frames_accepted ys)%list.
Proof. unfold frames_accepted. apply flat_map_app. Qed.

Lemma frames_reported_app (xs ys : list Event) :
  frames_reported (xs ++ ys) = (frames_reported xs ++ frames_reported ys)%list.
Proof. unfold frames_reported. apply flat_map_app. Qed.

Lemma sends_reported_weaken (s : State) :
  sends_reported s -> sends_reported_but_last s.
Proof.
  intros [Hr Hs]. split; [exact Hr |].
  exists []. rewrite app_nil_r. split; [exact Hs | cbn; lia].
Qed.

Lemma loop_body_reports (w : World) (mode : option string) :
  triple sends_reported (loop_body w mode) (fun _ => sends_reported)
         sends_reported_but_last.
Proof.
  intros s [Hr Hs]. unfold loop_body.
  destruct (is_send mode).
  - unfold bind, inc_dec_data_string, datetime_now_timestamp, bus_send, time_sleep,
      procedure, call, print.
    destruct (inc_dec_default (globals s)) as [text c].
    cbn [tick advance record trace globals].
    destruct (fault w (tick s)) as [e0 |].
    { split; cbn [trace advance record];
        rewrite ?frames_reported_app, ?frames_accepted_app, ?bus_sends_app, ?Hr, ?Hs;
        cbn; rewrite ?app_nil_r; [reflexivity |].
      exists []. rewrite app_nil_r. split; [reflexivity | cbn; lia]. }
    cbn [tick advance record trace globals].
    destruct (fault w (S (tick s))) as [e1 |].
    { split; cbn [trace advance record];
        rewrite ?frames_reported_app, ?frames_accepted_app, ?bus_sends_app, ?Hr, ?Hs;
        cbn; rewrite ?app_nil_r; [reflexivity |].
      eexists [_]. split; [reflexivity | cbn; lia]. }
    cbn [tick advance record trace globals].
    destruct (fault w (S (S (tick s)))) as [e2 |].
    { split; cbn [trace advance record];
        rewrite ?frames_reported_app, ?frames_accepted_app, ?bus_sends_app, ?Hr, ?Hs;
        cbn; rewrite ?app_nil_r; [reflexivity |].
      exists []. rewrite app_nil_r. split; [reflexivity | cbn; lia]. }
    split; cbn [trace advance record];
      rewrite ?frames_reported_app, ?frames_accepted_app, ?bus_sends_app, ?Hr, ?Hs;
      cbn; rewrite ?app_nil_r; reflexivity.
  - unfold bind, bus_recv, call, print.
    destruct (fault w (tick s)) as [e0 |].
    { split; cbn [trace advance record];
        rewrite ?frames_reported_app, ?frames_accepted_app, ?bus_sends_app, ?Hr, ?Hs;
        cbn; rewrite ?app_nil_r; [reflexivity |].
      exists []. rewrite app_nil_r. split; [reflexivity | cbn; lia]. }
    split; cbn [trace advance record];
      rewrite ?frames_reported_app, ?frames_accepted_app, ?bus_sends_app, ?Hr, ?Hs;
      cbn; rewrite ?app_nil_r; reflexivity.
Qed.

(** X11: the loop reports what it sent truthfully.  However long it
    runs and whatever raises, the frames printed as [Sent: ...] are
    exactly the frames [bus.send] accepted, in the same order; a frame
    whose send raised is not reported, and at most one send, the last,
    has raised. *)
Theorem send_loop_reports_accepted_frames (w : World) (fuel : nat)
  (mode : option string) (k : nat) (c : Counter) :
  let tr := trace (snd (session_loop w fuel mode (mkState k c []))) in
  frames_reported tr = frames_accepted tr
  /\ exists rest : list Message,
       bus_sends tr = (frames_accepted tr ++ rest)%list /\ (List.length rest <= 1)%nat.
Proof.
  pose proof (triple_forever sends_reported sends_reported_but_last fuel
                (loop_body w mode) (fun _ => sends_reported_but_last)
                (loop_body_reports w mode) sends_reported_weaken
                (mkState k c []) (conj eq_refl eq_refl)) as H.
  unfold session_loop.
  destruct (forever fuel (loop_body w mode) (mkState k c [])) as [[u | e |] s1];
    exact H.
Qed.

Lemma receive_pass (w : World) (mode : option string) (s : State) :
  is_send mode = false ->
  fault w (tick s) = None ->
  loop_body w mode s
  = (Val tt,
     extend s 1 [ Call BusRecv (Frame (delivered w (tick s)));
                  Output (Received (delivered w (tick s))) ]).
Proof.
  intros Hmode Hf. unfold loop_body, bus_recv. rewrite Hmode.
  rewrite (bind_val _ _ _ _ _ (call_calm w BusRecv (delivered w) Frame s Hf)).
  rewrite print_extend, extend_extend. reflexivity.
Qed.

(** Run the call of the goal that [Hf] says raises. *)
Ltac run_fault Hf :=
  repeat rewrite bind_bind;
  match goal with
  | |- context [bind (call ?w ?o ?v ?sh) ?k ?s] =>
      rewrite (bind_exc (call w o v sh) k s _ _ (call_fault w o v sh s _ Hf))
  | |- context [call ?w ?o ?v ?sh ?s] =>
      rewrite (call_fault w o v sh s _ Hf)
  end.

Lemma pass_fault (w : World) (mode : option string) (s : State) (n : nat) (e : exn) :
  (n < calls_per_pass mode)%nat ->
  calm w (tick s) n ->
  fault w (n + tick s) = Some e ->
  exists s1 : State,
    loop_body w mode s = (Exc e, s1) /\ tick s1 = S (n + tick s).
Proof.
  unfold calls_per_pass, loop_body. intros Hn Hcalm Hf.
  destruct (is_send mode).
  - unfold bind at 1. unfold inc_dec_data_string.
    destruct (inc_dec_default (globals s)) as [text c].
    unfold datetime_now_timestamp, bus_send, time_sleep, procedure.
    destruct n as [| [| [| n]]]; [| | | lia]; cbn [Nat.add] in Hf.
    + run_fault Hf. eexists. split; [reflexivity | reflexivity].
    + run_call Hcalm. run_fault Hf. eexists. split; [reflexivity | reflexivity].
    + do 2 run_call Hcalm.
      rewrite (bind_val _ _ _ _ _ (print_extend _ _)).
      run_fault Hf. eexists. split; [reflexivity | reflexivity].
  - unfold bus_recv.
    destruct n as [| n]; [| lia]; cbn [Nat.add] in Hf.
    run_fault Hf. eexists. split; [reflexivity | reflexivity].
Qed.

Lemma pass_calm (w : World) (mode : option string) (s : State) :
  calm w (tick s) (calls_per_pass mode) ->
  exists s1 : State,
    loop_body w mode s = (Val tt, s1)
    /\ tick s1 = (calls_per_pass mode + tick s)%nat.
Proof.
  unfold calls_per_pass. intros Hcalm.
  destruct (is_send mode) eqn:Hmode.
  - rewrite (send_pass w mode s Hmode Hcalm). eexists. split; reflexivity.
  - rewrite (receive_pass w mode s Hmode (Hcalm (tick s) ltac:(lia))).
    eexists. split; reflexivity.
Qed.

Lemma loop_first_fault (w : World) (mode : option string) (fuel : nat) :
  forall (s : State) (n : nat) (e : exn),
    calm w (tick s) n ->
    fault w (n + tick s) = Some e ->
    (n < calls_per_pass mode * fuel)%nat ->
    exists s1 : State,
      session_loop w fuel mode s = (Exc e, s1) /\ tick s1 = S (n + tick s).
Proof.
  unfold session_loop.
  assert (Hc : (1 <= calls_per_pass mode)%nat)
    by (unfold calls_per_pass; destruct (is_send mode); lia).
  induction fuel as [| fuel IH]; intros s n e Hcalm Hf Hn; [lia |].
  cbn [forever].
  destruct (Nat.lt_ge_cases n (calls_per_pass mode)) as [Hlt | Hge].
  - destruct (pass_fault w mode s n e Hlt Hcalm Hf) as (s1 & E & Ht).
    exists s1. split; [| exact Ht]. now rewrite (bind_exc _ _ _ _ _ E).
  - destruct (pass_calm w mode s) as (s1 & E & Ht).
    { intros k Hk. apply Hcalm. lia. }
    rewrite (bind_val _ _ _ _ _ E).
    destruct (IH s1 (n - calls_per_pass mode)%nat e) as (s2 & E2 & Ht2).
    + intros k Hk. apply Hcalm. lia.
    + rewrite Ht. rewrite <- Hf. f_equal. lia.
    + lia.
    + exists s2. split; [exact E2 |]. rewrite Ht2, Ht. lia.
Qed.

(** X12: the loop ends at the first call that raises, and not before:
    if the first [n] calls from the start of the loop return and the
    next one raises [e], then any run of more than [n] calls' worth of
    passes (three calls a pass in send mode, one otherwise) leaves the
    loop with [e] right after that call: no frame is skipped and
    nothing is retried. *)
Theorem loop_ends_at_first_failure (w : World) (mode : option string)
  (fuel : nat) (s : State) (n : nat) (e : exn) :
  calm w (tick s) n ->
  fault w (n + tick s) = Some e ->
  (n < calls_per_pass mode * fuel)%nat ->
  fst (session_loop w fuel mode s) = Exc e
  /\ tick (snd (session_loop w fuel mode s)) = S (n + tick s).
Proof.
  intros Hcalm Hf Hn.
  destruct (loop_first_fault w mode fuel s n e Hcalm Hf Hn) as (s1 & E & Ht).
  rewrite E. split; [reflexivity | exact Ht].
Qed.

Lemma calm_before_failure (k : nat) (e : exn) (from count : nat) :
  (from + count <= k)%nat -> calm (world_failing_at k e) from count.
Proof.
  intros H i Hi. unfold world_failing_at, world_with. cbn.
  destruct (Nat.eqb_spec i k); [lia | reflexivity].
Defined.

Lemma loop_ends_at_first_failure_witness :
  calm (world_failing_at 4 (Exception "send timed out")) (tick state0) 4
  /\ fault (world_failing_at 4 (Exception "send timed out")) (4 + tick state0)
     = Some (Exception "send timed out")
  /\ (4 < calls_per_pass (Some "s") * 2)%nat
  /\ fst (session_loop (world_failing_at 4 (Exception "send timed out")) 2
            (Some "s") state0)
     = Exc (Exception "send timed out").
Proof.
  assert (Hcalm : calm (world_failing_at 4 (Exception "send timed out"))
                       (tick state0) 4)
    by (apply calm_before_failure; cbn; lia).
  assert (Hn : (4 < calls_per_pass (Some "s") * 2)%nat) by (cbn; lia).
  split; [exact Hcalm |]. split; [reflexivity |]. split; [exact Hn |].
  apply (loop_ends_at_first_failure (world_failing_at 4 (Exception "send timed out"))
           (Some "s") 2 state0 4 (Exception "send timed out") Hcalm eq_refl Hn).
Defined.

(** X13: an error inside the loop does not make the script fail.  If
    the first [n] calls of the loop return, the next one raises
    [KeyboardInterrupt] or an [Exception], and no call of the teardown
    raises, then, given enough passes, the [try] statement returns
    normally: the exit status is 0 for an error as for an interrupt,
    and [bus.shutdown()] and [port.close()] are the last two calls. *)
Theorem session_error_ends_with_status_0 (w : World) (fuel : nat)
  (mode : option string) (port : Serial) (is_led : Flag)
  (s : State) (n : nat) (e : exn) :
  calm w (tick s) n ->
  fault w (n + tick s) = Some e ->
  (n < calls_per_pass mode * fuel)%nat ->
  (forall code, e <> SystemExit code) ->
  calm w (S (n + tick s)) (teardown_count is_led) ->
  exit_status (fst (run_session w fuel mode port is_led s)) = Some 0
  /\ exists before : list Event,
       trace (snd (run_session w fuel mode port is_led s))
       = (before ++ handler_events e ++ teardown_events is_led)%list.
Proof.
  intros Hcalm Hf Hn He Htd.
  destruct (loop_first_fault w mode fuel s n e Hcalm Hf Hn) as (s1 & E & Ht).
  unfold run_session, try_finally, try_except.
  rewrite E, handler_runs.
  assert (Htd' : calm w (tick (extend s1 0 (handler_events e))) (teardown_count is_led))
    by (cbn [tick extend Nat.add]; rewrite Ht; exact Htd).
  rewrite (teardown_runs w port is_led _ Htd'), extend_extend.
  split.
  - destruct e as [| msg | code]; [reflexivity | reflexivity |].
    exfalso. exact (He code eq_refl).
  - exists (trace s1). destruct e; reflexivity.
Qed.

Lemma session_error_ends_with_status_0_witness :
  calm (world_failing_at 4 (Exception "send timed out")) (tick state0) 4
  /\ (4 < calls_per_pass (Some "s") * 2)%nat
  /\ calm (world_failing_at 4 (Exception "send timed out")) (S (4 + tick state0))
          (teardown_count (FlagStr "on"))
  /\ exit_status
       (fst (run_session (world_failing_at 4 (Exception "send timed out")) 2
               (Some "s") (SerialOn "/dev/ttyACM0") (FlagStr "on") state0))
     = Some 0.
Proof.
  assert (Hcalm : calm (world_failing_at 4 (Exception "send timed out"))
                       (tick state0) 4)
    by (apply calm_before_failure; cbn; lia).
  assert (Hn : (4 < calls_per_pass (Some "s") * 2)%nat) by (cbn; lia).
  assert (Htd : calm (world_failing_at 4 (Exception "send timed out"))
                     (S (4 + tick state0)) (teardown_count (FlagStr "on"))).
  { intros i Hi. unfold world_failing_at, world_with. cbn in *.
    destruct (Nat.eqb_spec i 4); [lia | reflexivity]. }
  assert (He : forall code, Exception "send timed out" <> SystemExit code)
    by (intros code; discriminate).
  split; [exact Hcalm |]. split; [exact Hn |]. split; [exact Htd |].
  apply (session_error_ends_with_status_0
           (world_failing_at 4 (Exception "send timed out")) 2 (Some "s")
           (SerialOn "/dev/ttyACM0") (FlagStr "on") state0 4
           (Exception "send timed out") Hcalm eq_refl Hn He Htd).
Defined.

(** ** The command channel when a call raises *)

(** X14: [set_led_status] stops at the first call that raises: if its
    first [n] calls (writes and delays, [n < 8]) return and the next
    raises [e], it raises [e]; the LEDs handled so far stay as set, the
    failing call is recorded, and no later LED is touched. *)
Theorem set_led_status_stops_at_first_failure (w : World) (port : Serial)
  (is_led : Flag) (status : bool) (s : State) (n : nat) (e : exn) :
  flag_is_off is_led = false ->
  (n < 8)%nat ->
  calm w (tick s) n ->
  fault w (n + tick s) = Some e ->
  set_led_status w (Some port) is_led status s
  = (Exc e,
     extend s (S n)
       (firstn n (led_calls status)
        ++ [attempt e (nth n (led_calls status) (Output (Text "")))])).
Proof.
  intros Hflag Hn Hcalm Hf. unfold set_led_status. rewrite Hflag.
  cbn [truthy_port negb orb LED_COUNT seq for_each].
  unfold port_write, time_sleep, procedure.
  do 8 (destruct n as [| n];
        [ cbn [Nat.add] in Hf;
          repeat run_call Hcalm; run_fault Hf;
          repeat rewrite extend_extend;
          destruct status; reflexivity
        | ]).
  lia.
Qed.

Lemma set_led_status_stops_at_first_failure_witness :
  flag_is_off (FlagStr "on") = false
  /\ (2 < 8)%nat
  /\ calm (world_failing_at 2 (Exception "write failed")) (tick state0) 2
  /\ fault (world_failing_at 2 (Exception "write failed")) (2 + tick state0)
     = Some (Exception "write failed")
  /\ trace (snd (set_led_status (world_failing_at 2 (Exception "write failed"))
                   (Some (SerialOn "/dev/ttyACM0")) (FlagStr "on") true state0))
     = [ Call (PortWrite (encode ("dio set LED0 0 true" ++ CRLF))) Done;
         Call (Sleep 100) Done;
         Call (PortWrite (encode ("dio set LED0 1 true" ++ CRLF)))
              (Raised (Exception "write failed")) ].
Proof.
  assert (Hcalm : calm (world_failing_at 2 (Exception "write failed")) (tick state0) 2)
    by (apply calm_before_failure; cbn; lia).
  assert (Hn : (2 < 8)%nat) by lia.
  split; [reflexivity |]. split; [exact Hn |]. split; [exact Hcalm |].
  split; [reflexivity |].
  rewrite (set_led_status_stops_at_first_failure
             (world_failing_at 2 (Exception "write failed")) (SerialOn "/dev/ttyACM0")
             (FlagStr "on") true state0 2 (Exception "write failed")
             eq_refl Hn Hcalm eq_refl).
  reflexivity.
Defined.

(** ** The order of the calls of [main] *)

Lemma preceded_of_none (A B : Event -> Prop) (tr : list Event) :
  none_yet B tr -> preceded A B tr.
Proof.
  intros H pre ev post E HB. exfalso.
  unfold none_yet in H. rewrite Forall_forall in H.
  apply (H ev); [| exact HB].
  rewrite E. apply in_or_app. right. now left.
Qed.

Lemma preceded_snoc (A B : Event -> Prop) (tr : list Event) (ev : Event) :
  preceded A B tr -> (B ev -> Exists A tr) -> preceded A B (tr ++ [ev]).
Proof.
  intros Htr Hev pre x post E HB.
  destruct (exists_last (l := x :: post) ltac:(discriminate)) as (front & y & Ey).
  rewrite Ey, app_assoc in E.
  apply app_inj_tail in E. destruct E as [E1 E2].
  destruct front as [| z front]; cbn in Ey; injection Ey as Ex Epost.
  - subst x. rewrite app_nil_r in E1. subst pre. subst y. now apply Hev.
  - subst z. apply (Htr pre x front); [exact E1 | exact HB].
Qed.

Lemma reached_closed (A B : Event -> Prop) : closed_under any_event (reached A B).
Proof.
  intros tr ev _ [Hp Hex]. split.
  - apply preceded_snoc; [exact Hp | intros _; exact Hex].
  - apply Exists_app. now left.
Qed.

Lemma none_yet_closed (B : Event -> Prop) :
  closed_under (fun ev => ~ B ev) (none_yet B).
Proof. apply Forall_closed. Qed.

Lemma reached_of_none (A B : Event -> Prop) (tr : list Event) (ev : Event) :
  none_yet B tr -> ~ B ev -> A ev -> reached A B (tr ++ [ev]).
Proof.
  intros Hn HnB HA. split.
  - apply preceded_of_none. now apply none_yet_closed.
  - apply Exists_app. right. now constructor.
Qed.

Lemma triple_of_preserves_weak {A} (I : State -> Prop) (m : M A)
  (Q : A -> State -> Prop) (X : State -> Prop) :
  preserves I m ->
  (forall a s, I s -> Q a s) ->
  (forall s, I s -> X s) ->
  triple I m Q X.
Proof.
  intros H HQ HX s Hs. specialize (H s Hs).
  destruct (m s) as [[a | e |] s1]; auto.
Qed.

(** What is left of [main] once the port is open keeps every property
    of the trace that survives all events. *)
Ltac closed_rest HT HK :=
  repeat first
    [ apply (closed_configure_can _ _ _ HT); intros ? ?; apply HK; exact Logic.I
    | apply (closed_set_led_status _ _ _ HT); intros ? ? ?; apply HK; exact Logic.I
    | apply (closed_run_session _ _ _ HT); intros ? ?; apply HK; exact Logic.I
    | closed_step HT HK ].

Lemma any_event_holds (ev : Event) : True -> any_event ev.
Proof. intros _. exact Logic.I. Qed.

Lemma main_port_after_open (w : World) (fuel : nat) (mode : option string)
  (bit_rate : Z) (is_led : string) :
  triple (on_trace (none_yet port_op)) (main w fuel mode bit_rate is_led)
         (fun _ => on_trace (preceded serial_opened port_op))
         (on_trace (preceded serial_opened port_op)).
Proof.
  pose proof (none_yet_closed port_op) as HT0.
  pose proof (reached_closed serial_opened port_op) as HT1.
  assert (HK0 : forall ev, locator_event ev -> ~ port_op ev).
  { intros [[] a | []]; cbn; tauto. }
  assert (W0 : forall s, on_trace (none_yet port_op) s
                         -> on_trace (preceded serial_opened port_op) s).
  { intros s. apply preceded_of_none. }
  assert (W1 : forall s, on_trace (reached serial_opened port_op) s
                         -> on_trace (preceded serial_opened port_op) s).
  { intros s [H _]. exact H. }
  unfold main.
  destruct (negb (in_list bit_rate valid_bit_rates)).
  { apply triple_of_preserves_weak; [repeat closed_step HT0 HK0 | auto | exact W0]. }
  apply triple_bind with (Q := fun _ => on_trace (none_yet port_op)).
  { apply triple_of_preserves_weak;
      [now apply (closed_get_device_port _ _ _ HT0) | auto | exact W0]. }
  intros mgmt_port.
  apply triple_bind with (Q := fun _ => on_trace (none_yet port_op)).
  { apply triple_of_preserves_weak;
      [now apply (closed_get_device_port _ _ _ HT0) | auto | exact W0]. }
  intros vcan_port.
  destruct mgmt_port as [mgmt |];
    [| apply triple_of_preserves_weak; [repeat closed_step HT0 HK0 | auto | exact W0]].
  destruct vcan_port as [vcan |];
    [| apply triple_of_preserves_weak; [repeat closed_step HT0 HK0 | auto | exact W0]].
  destruct (negb (truthy mgmt) || negb (truthy vcan));
    [apply triple_of_preserves_weak; [repeat closed_step HT0 HK0 | auto | exact W0] |].
  apply triple_bind with (Q := fun _ => on_trace (reached serial_opened port_op)).
  { apply triple_call.
    - intros s e Hs. apply W0. apply HT0; [cbn; tauto | exact Hs].
    - intros s Hs. apply reached_of_none; [exact Hs | cbn; tauto | exact Logic.I]. }
  intros port.
  apply triple_of_preserves_weak; [| auto | exact W1].
  unfold port_write, time_sleep, port_inWaiting, port_read, can_Bus, procedure.
  closed_rest HT1 any_event_holds.
Qed.

Lemma reached_of_none_exists (A B : Event -> Prop) (tr : list Event) :
  none_yet B tr -> Exists A tr -> reached A B tr.
Proof. intros Hn Hex. split; [now apply preceded_of_none | exact Hex]. Qed.

Lemma configure_can_returns (w : World) (interface mode baud : string)
  (s s1 : State) (u : unit) :
  configure_can w interface mode baud s = (Val u, s1) ->
  exists (n : N) (bs : list byte) (text : string),
    trace s1 = (trace s ++ configure_calls interface mode baud n bs
                        ++ [Output (Text text)])%list.
Proof.
  unfold configure_can, port_write, time_sleep, port_inWaiting, port_read, procedure,
    mode_command, baud_command.
  unfold bind, call.
  destruct (fault w (tick s)); [discriminate |]. cbn [tick advance record].
  destruct (fault w (S (tick s))); [discriminate |]. cbn [tick advance record].
  destruct (fault w (S (S (tick s)))); [discriminate |]. cbn [tick advance record].
  destruct (fault w (S (S (S (tick s))))); [discriminate |]. cbn [tick advance record].
  destruct (fault w (S (S (S (S (tick s)))))); [discriminate |]. cbn [tick advance record].
  destruct (fault w (S (S (S (S (S (tick s))))))); [discriminate |].
  cbn [tick advance record].
  destruct (decode _) as [e | text]; [discriminate |].
  intros H. inversion H; subst. cbn [trace record advance globals].
  eexists _, _, text. unfold configure_calls.
  repeat rewrite <- app_assoc. reflexivity.
Qed.

Lemma main_session_after_bus (w : World) (fuel : nat) (mode : option string)
  (bit_rate : Z) (is_led : string) :
  triple (on_trace (none_yet session_op)) (main w fuel mode bit_rate is_led)
         (fun _ => on_trace (preceded bus_opened session_op))
         (on_trace (preceded bus_opened session_op)).
Proof.
  pose proof (none_yet_closed session_op) as HT0.
  pose proof (reached_closed bus_opened session_op) as HT1.
  assert (HK0 : forall ev, ~ session_op ev -> ~ session_op ev) by auto.
  assert (HKloc : forall ev, locator_event ev -> ~ session_op ev).
  { intros [[] a | []]; cbn; tauto. }
  assert (W0 : forall s, on_trace (none_yet session_op) s
                         -> on_trace (preceded bus_opened session_op) s).
  { intros s. apply preceded_of_none. }
  assert (W1 : forall s, on_trace (reached bus_opened session_op) s
                         -> on_trace (preceded bus_opened session_op) s).
  { intros s [H _]. exact H. }
  unfold main.
  destruct (negb (in_list bit_rate valid_bit_rates)).
  { apply triple_of_preserves_weak; [repeat closed_step HT0 HK0 | auto | exact W0]. }
  apply triple_bind with (Q := fun _ => on_trace (none_yet session_op)).
  { apply triple_of_preserves_weak;
      [now apply (closed_get_device_port _ _ _ HT0) | auto | exact W0]. }
  intros mgmt_port.
  apply triple_bind with (Q := fun _ => on_trace (none_yet session_op)).
  { apply triple_of_preserves_weak;
      [now apply (closed_get_device_port _ _ _ HT0) | auto | exact W0]. }
  intros vcan_port.
  destruct mgmt_port as [mgmt |];
    [| apply triple_of_preserves_weak; [repeat closed_step HT0 HK0 | auto | exact W0]].
  destruct vcan_port as [vcan |];
    [| apply triple_of_preserves_weak; [repeat closed_step HT0 HK0 | auto | exact W0]].
  destruct (negb (truthy mgmt) || negb (truthy vcan));
    [apply triple_of_preserves_weak; [repeat closed_step HT0 HK0 | auto | exact W0] |].
  unfold serial_Serial, port_write, time_sleep, port_inWaiting, port_read, procedure.
  do 6 (apply triple_bind with (Q := fun _ => on_trace (none_yet session_op));
        [ apply triple_of_preserves_weak; [closed_step HT0 HK0 | auto | exact W0]
        | intros ? ]).
  apply triple_bind with (Q := fun _ => on_trace (none_yet session_op)).
  { apply triple_of_preserves_weak; [| auto | exact W0].
    apply (closed_configure_can _ _ _ HT0).
    intros [[] ans | []]; cbn; tauto. }
  intros ?.
  apply triple_bind with (Q := fun _ => on_trace (none_yet session_op)).
  { apply triple_of_preserves_weak; [| auto | exact W0].
    apply (closed_set_led_status _ _ _ HT0).
    intros _ [[] ans | []]; cbn; tauto. }
  intros ?.
  apply triple_bind with (Q := fun _ => on_trace (reached bus_opened session_op)).
  { apply triple_call.
    - intros s e Hs. apply W0. apply HT0; [cbn; tauto | exact Hs].
    - intros s Hs. apply reached_of_none; [exact Hs | cbn; tauto | exact Logic.I]. }
  intros bus.
  apply triple_of_preserves_weak; [| auto | exact W1].
  closed_rest HT1 any_event_holds.
Qed.

Lemma main_bus_after_configuration (A : Event -> Prop) (w : World) (fuel : nat)
  (mode : option string) (bit_rate : Z) (is_led : string) :
  (forall n bs, Exists A (configure_calls "VCAN0" "slcan" (str_int bit_rate) n bs)) ->
  triple (on_trace (none_yet bus_open_call)) (main w fuel mode bit_rate is_led)
         (fun _ => on_trace (preceded A bus_open_call))
         (on_trace (preceded A bus_open_call)).
Proof.
  intros HA.
  pose proof (none_yet_closed bus_open_call) as HT0.
  pose proof (reached_closed A bus_open_call) as HT1.
  assert (HK0 : forall ev, ~ bus_open_call ev -> ~ bus_open_call ev) by auto.
  assert (HKloc : forall ev, locator_event ev -> ~ bus_open_call ev).
  { intros [[] a | []]; cbn; tauto. }
  assert (W0 : forall s, on_trace (none_yet bus_open_call) s
                         -> on_trace (preceded A bus_open_call) s).
  { intros s. apply preceded_of_none. }
  assert (W1 : forall s, on_trace (reached A bus_open_call) s
                         -> on_trace (preceded A bus_open_call) s).
  { intros s [H _]. exact H. }
  unfold main.
  destruct (negb (in_list bit_rate valid_bit_rates)).
  { apply triple_of_preserves_weak; [repeat closed_step HT0 HK0 | auto | exact W0]. }
  apply triple_bind with (Q := fun _ => on_trace (none_yet bus_open_call)).
  { apply triple_of_preserves_weak;
      [now apply (closed_get_device_port _ _ _ HT0) | auto | exact W0]. }
  intros mgmt_port.
  apply triple_bind with (Q := fun _ => on_trace (none_yet bus_open_call)).
  { apply triple_of_preserves_weak;
      [now apply (closed_get_device_port _ _ _ HT0) | auto | exact W0]. }
  intros vcan_port.
  destruct mgmt_port as [mgmt |];
    [| apply triple_of_preserves_weak; [repeat closed_step HT0 HK0 | auto | exact W0]].
  destruct vcan_port as [vcan |];
    [| apply triple_of_preserves_weak; [repeat closed_step HT0 HK0 | auto | exact W0]].
  destruct (negb (truthy mgmt) || negb (truthy vcan));
    [apply triple_of_preserves_weak; [repeat closed_step HT0 HK0 | auto | exact W0] |].
  unfold serial_Serial, port_write, time_sleep, port_inWaiting, port_read, procedure.
  do 6 (apply triple_bind with (Q := fun _ => on_trace (none_yet bus_open_call));
        [ apply triple_of_preserves_weak; [closed_step HT0 HK0 | auto | exact W0]
        | intros ? ]).
  apply triple_bind with (Q := fun _ => on_trace (reached A bus_open_call)).
  { eapply triple_weaken.
    - apply (triple_with_value (on_trace (none_yet bus_open_call))
               (configure_can w "VCAN0" "slcan" (str_int bit_rate))
               (fun _ s1 => Exists A (trace s1))).
      + apply (closed_configure_can _ _ _ HT0).
        intros [[] ans | []]; cbn; tauto.
      + intros s u s1 _ E.
        destruct (configure_can_returns _ _ _ _ _ _ _ E) as (n & bs & text & Etr).
        rewrite Etr. apply Exists_app. right. apply Exists_app. left. apply HA.
    - auto.
    - intros u s [Hn Hex]. now apply reached_of_none_exists.
    - exact W0. }
  intros ?.
  apply triple_of_preserves_weak; [| auto | exact W1].
  unfold can_Bus.
  closed_rest HT1 any_event_holds.
Qed.

Lemma Exists_In {A} (P : A -> Prop) (l : list A) :
  Exists P l -> exists x, In x l /\ P x.
Proof. apply Exists_exists. Qed.

(** X15: [main] never touches the management port before it has opened
    it: every write, read, [inWaiting], buffer reset or close comes
    after a call of [serial.Serial(...)] that returned. *)
Theorem main_opens_port_before_using_it (w : World) (fuel : nat)
  (mode : option string) (bit_rate : Z) (is_led : string)
  (pre : list Event) (ev : Event) (post : list Event) :
  trace (snd (main w fuel mode bit_rate is_led state0)) = (pre ++ ev :: post)%list ->
  port_op ev ->
  exists path : string, In (Call (SerialOpen path) Done) pre.
Proof.
  intros E Hop.
  pose proof (main_port_after_open w fuel mode bit_rate is_led state0
                (Forall_nil _)) as H.
  assert (Hp : preceded serial_opened port_op
                 (trace (snd (main w fuel mode bit_rate is_led state0)))).
  { destruct (main w fuel mode bit_rate is_led state0) as [[u | e |] s1]; exact H. }
  destruct (Exists_In _ _ (Hp pre ev post E Hop)) as (x & Hin & Hx).
  destruct x as [[] [] | ]; cbn in Hx; try contradiction.
  now exists path.
Qed.

Lemma main_opens_port_before_using_it_witness :
  trace (snd (main quiet_world 1 (Some "r") 250 "off" state0))
  = (firstn 7 sample_trace ++ sample_event 7 :: skipn 8 sample_trace)%list
  /\ port_op (sample_event 7)
  /\ exists path : string, In (Call (SerialOpen path) Done) (firstn 7 sample_trace).
Proof.
  assert (E : trace (snd (main quiet_world 1 (Some "r") 250 "off" state0))
              = (firstn 7 sample_trace ++ sample_event 7 :: skipn 8 sample_trace)%list)
    by (vm_compute; reflexivity).
  assert (Hop : port_op (sample_event 7)) by (vm_compute; exact Logic.I).
  split; [exact E |]. split; [exact Hop |].
  apply (main_opens_port_before_using_it quiet_world 1 (Some "r") 250 "off"
           (firstn 7 sample_trace) (sample_event 7) (skipn 8 sample_trace) E Hop).
Defined.

(** X16: [main] uses the bus, and runs its teardown, only after
    [can.Bus(...)] returned: every clock reading, [bus.send],
    [bus.recv], [bus.shutdown], buffer reset and [port.close] comes
    after it.  So when a call fails between the opening of the port and
    the opening of the bus, the port is never closed. *)
Theorem main_session_needs_open_bus (w : World) (fuel : nat)
  (mode : option string) (bit_rate : Z) (is_led : string)
  (pre : list Event) (ev : Event) (post : list Event) :
  trace (snd (main w fuel mode bit_rate is_led state0)) = (pre ++ ev :: post)%list ->
  session_op ev ->
  exists (interface channel : string) (bitrate : Z) (own : bool),
    In (Call (BusOpen interface channel bitrate own) Done) pre.
Proof.
  intros E Hop.
  pose proof (main_session_after_bus w fuel mode bit_rate is_led state0
                (Forall_nil _)) as H.
  assert (Hp : preceded bus_opened session_op
                 (trace (snd (main w fuel mode bit_rate is_led state0)))).
  { destruct (main w fuel mode bit_rate is_led state0) as [[u | e |] s1]; exact H. }
  destruct (Exists_In _ _ (Hp pre ev post E Hop)) as (x & Hin & Hx).
  destruct x as [[] [] | ]; cbn in Hx; try contradiction.
  now exists interface, channel, bitrate, receive_own_messages.
Qed.

Lemma main_session_needs_open_bus_witness :
  trace (snd (main quiet_world 1 (Some "r") 250 "off" state0))
  = (firstn 21 sample_trace ++ sample_event 21 :: skipn 22 sample_trace)%list
  /\ session_op (sample_event 21)
  /\ exists (interface channel : string) (bitrate : Z) (own : bool),
       In (Call (BusOpen interface channel bitrate own) Done) (firstn 21 sample_trace).
Proof.
  assert (E : trace (snd (main quiet_world 1 (Some "r") 250 "off" state0))
              = (firstn 21 sample_trace ++ sample_event 21 :: skipn 22 sample_trace)%list)
    by (vm_compute; reflexivity).
  assert (Hop : session_op (sample_event 21)) by (vm_compute; exact Logic.I).
  split; [exact E |]. split; [exact Hop |].
  apply (main_session_needs_open_bus quiet_world 1 (Some "r") 250 "off"
           (firstn 21 sample_trace) (sample_event 21) (skipn 22 sample_trace) E Hop).
Defined.

(** X17: [main] opens the bus only after both configuration lines went
    out, and with matching settings: whenever [can.Bus] is called, the
    writes of [set can-mode VCAN0 slcan] and of
    [set can-baudrate VCAN0 <bit_rate>] have returned before, the
    interface is [slcan], the bit-rate is [bit_rate * 1000] and
    [receive_own_messages] is [False]. *)
Theorem main_configures_before_opening_bus (w : World) (fuel : nat)
  (mode : option string) (bit_rate : Z) (is_led : string)
  (pre : list Event) (interface channel : string) (bitrate : Z) (own : bool)
  (a : Answer) (post : list Event) :
  trace (snd (main w fuel mode bit_rate is_led state0))
  = (pre ++ Call (BusOpen interface channel bitrate own) a :: post)%list ->
  interface = "slcan" /\ bitrate = bit_rate * 1000 /\ own = false
  /\ In (Call (PortWrite (encode ("set can-mode VCAN0 slcan" ++ CRLF))) Done) pre
  /\ In (Call (PortWrite (encode ("set can-baudrate VCAN0 " ++ str_int bit_rate ++ CRLF)))
              Done) pre.
Proof.
  intros E.
  assert (Hin : In (Call (BusOpen interface channel bitrate own) a)
                   (trace (snd (main w fuel mode bit_rate is_led state0)))).
  { rewrite E. apply in_or_app. right. now left. }
  apply main_events in Hin. cbn in Hin. destruct Hin as (Hi & Hb & Ho).
  assert (Hpre : forall A : Event -> Prop,
             (forall n bs, Exists A (configure_calls "VCAN0" "slcan" (str_int bit_rate) n bs)) ->
             Exists A pre).
  { intros A HA.
    pose proof (main_bus_after_configuration A w fuel mode bit_rate is_led HA state0
                  (Forall_nil _)) as H.
    assert (Hp : preceded A bus_open_call
                   (trace (snd (main w fuel mode bit_rate is_led state0)))).
    { destruct (main w fuel mode bit_rate is_led state0) as [[u | e |] s1]; exact H. }
    exact (Hp pre _ post E Logic.I). }
  repeat split; try assumption.
  - destruct (Exists_In _ _ (Hpre mode_written
                               ltac:(intros n bs; left; reflexivity)))
      as (x & Hx & Ex).
    unfold mode_written in Ex. now subst x.
  - destruct (Exists_In _ _ (Hpre (baud_written bit_rate)
                               ltac:(intros n bs; right; right; left; reflexivity)))
      as (x & Hx & Ex).
    unfold baud_written in Ex. now subst x.
Qed.

Lemma main_configures_before_opening_bus_witness :
  trace (snd (main quiet_world 1 (Some "r") 250 "off" state0))
  = (firstn 19 sample_trace
     ++ Call (BusOpen "slcan" "/dev/ttyACM2" 250000 false) Done
     :: skipn 20 sample_trace)%list
  /\ In (Call (PortWrite (encode ("set can-baudrate VCAN0 " ++ str_int 250 ++ CRLF))) Done)
        (firstn 19 sample_trace).
Proof.
  assert (E : trace (snd (main quiet_world 1 (Some "r") 250 "off" state0))
              = (firstn 19 sample_trace
                 ++ Call (BusOpen "slcan" "/dev/ttyACM2" 250000 false) Done
                 :: skipn 20 sample_trace)%list)
    by (vm_compute; reflexivity).
  split; [exact E |].
  apply (main_configures_before_opening_bus quiet_world 1 (Some "r") 250 "off"
           (firstn 19 sample_trace) "slcan" "/dev/ttyACM2" 250000 false Done
           (skipn 20 sample_trace) E).
Defined.

(** ** Nothing after the teardown *)

Lemma then_only_snoc_none (C D : Event -> Prop) (tr : list Event) (ev : Event) :
  none_yet C tr -> then_only C D (tr ++ [ev]).
Proof.
  intros Hn pre x post E HC.
  destruct (exists_last (l := x :: post) ltac:(discriminate)) as (front & y & Ey).
  rewrite Ey, app_assoc in E.
  apply app_inj_tail in E. destruct E as [E1 E2].
  destruct front as [| z front]; cbn in Ey; injection Ey as Ex Epost.
  - subst post. constructor.
  - exfalso. subst z. unfold none_yet in Hn. rewrite Forall_forall in Hn.
    apply (Hn x); [| exact HC].
    rewrite E1. apply in_or_app. right. now left.
Qed.

Lemma then_only_of_none (C D : Event -> Prop) (tr : list Event) :
  none_yet C tr -> then_only C D tr.
Proof.
  intros Hn pre x post E HC. exfalso.
  unfold none_yet in Hn. rewrite Forall_forall in Hn.
  apply (Hn x); [| exact HC].
  rewrite E. apply in_or_app. right. now left.
Qed.

Lemma then_only_closed (C D : Event -> Prop) : closed_under D (then_only C D).
Proof.
  intros tr ev HD Htr pre x post E HC.
  destruct (exists_last (l := x :: post) ltac:(discriminate)) as (front & y & Ey).
  rewrite Ey, app_assoc in E.
  apply app_inj_tail in E. destruct E as [E1 E2].
  destruct front as [| z front]; cbn in Ey; injection Ey as Ex Epost.
  - subst post. constructor.
  - subst z post y. apply Forall_app. split.
    + exact (Htr pre x front E1 HC).
    + now constructor.
Qed.

Section AfterTeardown.

Variable w : World.
Variables C D : Event -> Prop.
Hypothesis C_closing : forall ev, not_closing ev -> ~ C ev.
Hypothesis C_order :
  (forall a, ~ C (Call BusShutdown a)) \/ (forall a, D (Call PortClose a)).

Let T0 : list Event -> Prop := none_yet C.
Let T1 : list Event -> Prop := then_only C D.

Lemma weaken_none (s : State) : on_trace T0 s -> on_trace T1 s.
Proof. apply then_only_of_none. Qed.

Lemma teardown_then_only (port : Serial) (is_led : Flag) :
  triple (on_trace T0) (teardown w port is_led) (fun _ => on_trace T1) (on_trace T1).
Proof.
  pose proof (none_yet_closed C) as HT0.
  pose proof (then_only_closed C D) as HT1.
  unfold teardown, time_sleep, port_reset_input_buffer, port_reset_output_buffer,
    bus_shutdown, port_close, procedure.
  do 3 (apply triple_bind with (Q := fun _ => on_trace T0);
        [ apply triple_of_preserves_weak;
          [closed_step HT0 C_closing | auto | exact weaken_none]
        | intros ? ]).
  apply triple_bind with (Q := fun _ => on_trace T0).
  { apply triple_of_preserves_weak; [| auto | exact weaken_none].
    apply (closed_set_led_status _ _ _ HT0).
    intros _ [[] ans | []]; cbn; try tauto; intros _; apply C_closing; exact Logic.I. }
  intros ?.
  destruct C_order as [Hsd | Hcl].
  - apply triple_bind with (Q := fun _ => on_trace T0).
    { apply triple_of_preserves_weak; [| auto | exact weaken_none].
      apply (closed_call _ _ _ HT0). intros ans. apply Hsd. }
    intros ?.
    apply triple_call; intros; now apply then_only_snoc_none.
  - apply triple_bind with (Q := fun _ => on_trace T1).
    { apply triple_call; intros; now apply then_only_snoc_none. }
    intros ?.
    apply triple_of_preserves_weak; [| auto | auto].
    apply (closed_call _ _ _ HT1). intros ans. apply Hcl.
Qed.

Lemma run_session_then_only (fuel : nat) (mode : option string) (port : Serial)
  (is_led : Flag) :
  triple (on_trace T0) (run_session w fuel mode port is_led)
         (fun _ => on_trace T1) (on_trace T1).
Proof.
  pose proof (none_yet_closed C) as HT0.
  unfold run_session, session_loop.
  apply triple_try_finally with (R := on_trace T0).
  - apply triple_of_preserves.
    apply preserves_try_except.
    + apply preserves_forever. apply (closed_loop_body _ _ _ HT0).
      intros [[] ans | []]; cbn; try tauto; intros _; apply C_closing; exact Logic.I.
    + intros e h Hh. destruct e as [| msg | code]; cbn in Hh; inversion Hh; subst;
        apply (closed_print _ _ HT0); apply C_closing; exact Logic.I.
  - apply teardown_then_only.
  - exact weaken_none.
  - auto.
Qed.

Lemma main_then_only (fuel : nat) (mode : option string) (bit_rate : Z)
  (is_led : string) :
  triple (on_trace T0) (main w fuel mode bit_rate is_led)
         (fun _ => on_trace T1) (on_trace T1).
Proof.
  pose proof (none_yet_closed C) as HT0.
  pose proof weaken_none as W0.
  assert (HKloc : forall ev, locator_event ev -> ~ C ev).
  { intros [[] a | []]; cbn; try tauto; intros _; apply C_closing; exact Logic.I. }
  unfold main.
  destruct (negb (in_list bit_rate valid_bit_rates)).
  { apply triple_of_preserves_weak;
      [repeat closed_step HT0 C_closing | auto | exact weaken_none]. }
  apply triple_bind with (Q := fun _ => on_trace T0).
  { apply triple_of_preserves_weak;
      [now apply (closed_get_device_port _ _ _ HT0) | auto | exact weaken_none]. }
  intros mgmt_port.
  apply triple_bind with (Q := fun _ => on_trace T0).
  { apply triple_of_preserves_weak;
      [now apply (closed_get_device_port _ _ _ HT0) | auto | exact weaken_none]. }
  intros vcan_port.
  destruct mgmt_port as [mgmt |];
    [| apply triple_of_preserves_weak;
       [repeat closed_step HT0 C_closing | auto | exact weaken_none]].
  destruct vcan_port as [vcan |];
    [| apply triple_of_preserves_weak;
       [repeat closed_step HT0 C_closing | auto | exact weaken_none]].
  destruct (negb (truthy mgmt) || negb (truthy vcan));
    [apply triple_of_preserves_weak;
       [repeat closed_step HT0 C_closing | auto | exact weaken_none] |].
  unfold serial_Serial, port_write, time_sleep, port_inWaiting, port_read,
    can_Bus, procedure.
  do 6 (apply triple_bind with (Q := fun _ => on_trace T0);
        [ apply triple_of_preserves_weak;
          [closed_step HT0 C_closing | auto | exact weaken_none]
        | intros ? ]).
  apply triple_bind with (Q := fun _ => on_trace T0).
  { apply triple_of_preserves_weak; [| auto | exact weaken_none].
    apply (closed_configure_can _ _ _ HT0).
    intros [[] ans | []]; cbn; try tauto; intros _; apply C_closing; exact Logic.I. }
  intros ?.
  apply triple_bind with (Q := fun _ => on_trace T0).
  { apply triple_of_preserves_weak; [| auto | exact weaken_none].
    apply (closed_set_led_status _ _ _ HT0).
    intros _ [[] ans | []]; cbn; try tauto; intros _; apply C_closing; exact Logic.I. }
  intros ?.
  do 3 (apply triple_bind with (Q := fun _ => on_trace T0);
        [ apply triple_of_preserves_weak;
          [closed_step HT0 C_closing | auto | exact weaken_none]
        | intros ? ]).
  apply run_session_then_only.
Qed.

End AfterTeardown.

(** X18: [main] does nothing after its teardown.  Once [port.close()]
    has been called, no further call or print follows; once
    [bus.shutdown()] has been called, the only thing that can follow is
    the one call of [port.close()]. *)
Theorem main_stops_after_teardown (w : World) (fuel : nat)
  (mode : option string) (bit_rate : Z) (is_led : string)
  (pre : list Event) (ev : Event) (post : list Event) :
  trace (snd (main w fuel mode bit_rate is_led state0)) = (pre ++ ev :: post)%list ->
  (close_call ev -> post = [])
  /\ (shutdown_call ev -> post = [] \/ exists a : Answer, post = [Call PortClose a]).
Proof.
  intros E.
  assert (Hclose : then_only close_call no_event
                     (trace (snd (main w fuel mode bit_rate is_led state0)))).
  { pose proof (main_then_only w close_call no_event) as H.
    specialize (H ltac:(intros [[] a | []]; cbn; tauto)
                  ltac:(left; intros a; cbn; tauto)
                  fuel mode bit_rate is_led state0 (Forall_nil _)).
    destruct (main w fuel mode bit_rate is_led state0) as [[u | e |] s1]; exact H. }
  assert (Hshut : then_only shutdown_call close_call
                    (trace (snd (main w fuel mode bit_rate is_led state0)))).
  { pose proof (main_then_only w shutdown_call close_call) as H.
    specialize (H ltac:(intros [[] a | []]; cbn; tauto)
                  ltac:(right; intros a; exact Logic.I)
                  fuel mode bit_rate is_led state0 (Forall_nil _)).
    destruct (main w fuel mode bit_rate is_led state0) as [[u | e |] s1]; exact H. }
  assert (Hlast : forall pre0 ev0 post0,
             trace (snd (main w fuel mode bit_rate is_led state0))
             = (pre0 ++ ev0 :: post0)%list ->
             close_call ev0 -> post0 = []).
  { intros pre0 ev0 post0 E0 Hc.
    pose proof (Hclose pre0 ev0 post0 E0 Hc) as F.
    destruct post0 as [| p post0]; [reflexivity |].
    inversion F; subst. contradiction. }
  split.
  - apply (Hlast pre ev post E).
  - intros Hs. pose proof (Hshut pre ev post E Hs) as F.
    destruct post as [| p post]; [now left |]. right.
    inversion F as [| ? ? Hp Hrest]; subst.
    destruct p as [[] a | ]; cbn in Hp; try contradiction.
    exists a. f_equal.
    apply (Hlast (pre ++ [ev])%list (Call PortClose a) post); [| exact Logic.I].
    rewrite E, <- app_assoc. reflexivity.
Qed.

Lemma main_stops_after_teardown_witness :
  trace (snd (main (world_failing_at 15 KeyboardInterrupt) 3 (Some "r") 250 "off" state0))
  = (firstn 28 interrupted_trace ++ Call BusShutdown Done :: skipn 29 interrupted_trace)%list
  /\ (skipn 29 interrupted_trace = []
      \/ exists a : Answer, skipn 29 interrupted_trace = [Call PortClose a]).
Proof.
  assert (E : trace (snd (main (world_failing_at 15 KeyboardInterrupt) 3 (Some "r")
                            250 "off" state0))
              = (firstn 28 interrupted_trace ++ Call BusShutdown Done
                 :: skipn 29 interrupted_trace)%list)
    by (vm_compute; reflexivity).
  split; [exact E |].
  apply (main_stops_after_teardown (world_failing_at 15 KeyboardInterrupt) 3 (Some "r")
           250 "off" (firstn 28 interrupted_trace) (Call BusShutdown Done)
           (skipn 29 interrupted_trace) E).
  exact Logic.I.
Defined.

(** X20: [configure_can] stops at the first call that raises: if its
    first [n] calls ([n < 6]) return and the next raises [e], it raises
    [e], having recorded the calls made so far and the failing one; in
    particular the baud line is not written when the mode line could
    not be, and nothing is printed. *)
Theorem configure_can_stops_at_first_failure (w : World)
  (interface mode baud : string) (s : State) (n : nat) (e : exn) :
  (n < 6)%nat ->
  calm w (tick s) n ->
  fault w (n + tick s) = Some e ->
  configure_can w interface mode baud s
  = (Exc e,
     extend s (S n)
       (firstn n (configure_calls interface mode baud
                    (buffered w (4 + tick s))
                    (incoming w (5 + tick s) (buffered w (4 + tick s))))
        ++ [attempt e
              (nth n (configure_calls interface mode baud
                        (buffered w (4 + tick s))
                        (incoming w (5 + tick s) (buffered w (4 + tick s))))
                   (Output (Text "")))])).
Proof.
  intros Hn Hcalm Hf.
  unfold configure_can, port_write, time_sleep, port_inWaiting, port_read, procedure,
    mode_command, baud_command, configure_calls.
  do 6 (destruct n as [| n];
        [ cbn [Nat.add] in Hf;
          repeat run_call Hcalm; run_fault Hf;
          repeat rewrite extend_extend; reflexivity
        | ]).
  lia.
Qed.

Lemma configure_can_stops_at_first_failure_witness :
  (0 < 6)%nat
  /\ calm (world_failing_at 0 (Exception "write failed")) (tick state0) 0
  /\ fault (world_failing_at 0 (Exception "write failed")) (0 + tick state0)
     = Some (Exception "write failed")
  /\ trace (snd (configure_can (world_failing_at 0 (Exception "write failed"))
                   "VCAN0" "slcan" "500" state0))
     = [ Call (PortWrite (encode ("set can-mode VCAN0 slcan" ++ CRLF)))
              (Raised (Exception "write failed")) ].
Proof.
  assert (Hn : (0 < 6)%nat) by lia.
  assert (Hcalm : calm (world_failing_at 0 (Exception "write failed")) (tick state0) 0)
    by (intros k Hk; cbn in Hk; lia).
  split; [exact Hn |]. split; [exact Hcalm |]. split; [reflexivity |].
  rewrite (configure_can_stops_at_first_failure
             (world_failing_at 0 (Exception "write failed")) "VCAN0" "slcan" "500"
             state0 0 (Exception "write failed") Hn Hcalm eq_refl).
  reflexivity.
Defined.

(** ** The teardown when a call raises *)

Lemma bind_ret {A B} (a : A) (k : A -> M B) (s : State) : bind (ret a) k s = k a s.
Proof. reflexivity. Qed.

Lemma teardown_fails_at (w : World) (port : Serial)
  (is_led : Flag) (s : State) (n : nat) (e : exn) :
  (n < teardown_count is_led)%nat ->
  calm w (tick s) n ->
  fault w (n + tick s) = Some e ->
  teardown w port is_led s
  = (Exc e,
     extend s (S n)
       (firstn n (teardown_events is_led)
        ++ [attempt e (nth n (teardown_events is_led) (Output (Text "")))])).
Proof.
  unfold teardown_count, teardown_events, teardown, set_led_status.
  destruct (flag_is_off is_led); intros Hn Hcalm Hf;
    cbn [truthy_port negb orb LED_COUNT seq for_each];
    unfold time_sleep, port_reset_input_buffer, port_reset_output_buffer,
      bus_shutdown, port_close, port_write, procedure.
  - do 5 (destruct n as [| n];
          [ cbn [Nat.add] in Hf;
            repeat run_call Hcalm; try rewrite bind_ret;
            repeat run_call Hcalm; run_fault Hf;
            repeat rewrite extend_extend; reflexivity
          | ]).
    lia.
  - do 13 (destruct n as [| n];
           [ cbn [Nat.add] in Hf;
             repeat run_call Hcalm; try (rewrite bind_ret; repeat run_call Hcalm);
             run_fault Hf;
             repeat rewrite extend_extend; reflexivity
           | ]).
    lia.
Qed.

(** X21: the teardown has no step that protects the next: if its first
    [n] calls return and the next raises [e], the [finally] block ends
    there with [e]; the calls after it are not made.  So
    [bus.shutdown()] and [port.close()] are reached only when every
    call before them returned. *)
Theorem teardown_stops_at_first_failure (w : World) (port : Serial)
  (is_led : Flag) (s : State) (n : nat) (e : exn) :
  (n < teardown_count is_led)%nat ->
  calm w (tick s) n ->
  fault w (n + tick s) = Some e ->
  teardown w port is_led s
  = (Exc e,
     extend s (S n)
       (firstn n (teardown_events is_led)
        ++ [attempt e (nth n (teardown_events is_led) (Output (Text "")))])).
Proof. exact (teardown_fails_at w port is_led s n e). Qed.

Lemma teardown_stops_at_first_failure_witness :
  (1 < teardown_count (FlagStr "off"))%nat
  /\ calm (world_failing_at 1 (Exception "port is not open")) (tick state0) 1
  /\ fault (world_failing_at 1 (Exception "port is not open")) (1 + tick state0)
     = Some (Exception "port is not open")
  /\ trace (snd (teardown (world_failing_at 1 (Exception "port is not open"))
                   (SerialOn "/dev/ttyACM0") (FlagStr "off") state0))
     = [ Call (Sleep 1000) Done;
         Call PortResetInput (Raised (Exception "port is not open")) ].
Proof.
  assert (Hn : (1 < teardown_count (FlagStr "off"))%nat) by (cbn; lia).
  assert (Hcalm : calm (world_failing_at 1 (Exception "port is not open"))
                       (tick state0) 1)
    by (apply calm_before_failure; cbn; lia).
  split; [exact Hn |]. split; [exact Hcalm |]. split; [reflexivity |].
  rewrite (teardown_stops_at_first_failure
             (world_failing_at 1 (Exception "port is not open"))
             (SerialOn "/dev/ttyACM0") (FlagStr "off") state0 1
             (Exception "port is not open") Hn Hcalm eq_refl).
  reflexivity.
Defined.

(** ** The reply of the device, and names outside ASCII *)

(** C5 (as described): with no call raising, a reply that is not UTF-8
    is read but not logged: [decode()] raises and nothing is printed;
    and an interface name outside ASCII gives a command line that is
    not ASCII. *)
Lemma configure_can_reply_not_always_logged :
  calm garbled_world (tick state0) 6
  /\ fst (configure_can garbled_world "VCAN0" "slcan" "500" state0)
     = Exc (Exception "UnicodeDecodeError")
  /\ In (Call (PortRead 1) (Bytes [xff]))
        (trace (snd (configure_can garbled_world "VCAN0" "slcan" "500" state0)))
  /\ existsb is_output
       (trace (snd (configure_can garbled_world "VCAN0" "slcan" "500" state0)))
     = false
  /\ In (Call (PortWrite (encode ("set can-mode " ++ accented_name ++ " slcan" ++ CRLF)))
              Done)
        (trace (snd (configure_can quiet_world accented_name "slcan" "500" state0)))
  /\ is_ascii (encode ("set can-mode " ++ accented_name ++ " slcan" ++ CRLF)) = false.
Proof.
  split; [intros k _; reflexivity |].
  split; [reflexivity |].
  split; [vm_compute; repeat (first [left; reflexivity | right]) |].
  split; [reflexivity |].
  split; [vm_compute; repeat (first [left; reflexivity | right]) | reflexivity].
Qed.

(** ** The teardown after the loop, in full *)

(** C6 (as the code runs): when the loop leaves through an exception,
    of whatever kind, the matching [except] clause prints its line and
    the [finally] block runs its calls in order: sleep, the two buffer
    resets, the LED lines when the LED check is on, [bus.shutdown()],
    [port.close()].  If none of them raises, the last two calls are
    [bus.shutdown()] and [port.close()], both successful; a caught
    exception is then gone and any other is raised again.  If the first
    [n] return and the next raises [e'], the block ends there with [e']
    and the later calls are not made: [bus.shutdown()] is reached only
    if every call before it returned, and [port.close()] only if
    [bus.shutdown()] returned too. *)
Theorem teardown_after_loop_exception (w : World) (fuel : nat)
  (mode : option string) (port : Serial) (is_led : Flag)
  (s s1 : State) (e : exn) :
  session_loop w fuel mode s = (Exc e, s1) ->
  (calm w (tick s1) (teardown_count is_led) ->
   run_session w fuel mode port is_led s
   = (after_handler e,
      extend s1 (teardown_count is_led) (handler_events e ++ teardown_events is_led))
   /\ exists before : list Event,
        trace (snd (run_session w fuel mode port is_led s))
        = (before ++ [Call BusShutdown Done; Call PortClose Done])%list)
  /\ (forall (n : nat) (e' : exn),
        (n < teardown_count is_led)%nat ->
        calm w (tick s1) n ->
        fault w (n + tick s1) = Some e' ->
        run_session w fuel mode port is_led s
        = (Exc e',
           extend s1 (S n)
             (handler_events e
              ++ firstn n (teardown_events is_led)
              ++ [attempt e' (nth n (teardown_events is_led) (Output (Text "")))]))).
Proof.
  intros Hloop. split.
  - intros Hcalm.
    assert (E : run_session w fuel mode port is_led s
                = (after_handler e,
                   extend s1 (teardown_count is_led)
                          (handler_events e ++ teardown_events is_led))).
    { unfold run_session, try_finally, try_except. rewrite Hloop, handler_runs.
      assert (Hcalm' : calm w (tick (extend s1 0 (handler_events e)))
                            (teardown_count is_led)) by exact Hcalm.
      rewrite (teardown_runs w port is_led _ Hcalm'), extend_extend.
      rewrite Nat.add_0_r.
      destruct e; reflexivity. }
    split; [exact E |].
    rewrite E. cbn [snd extend trace]. unfold teardown_events.
    eexists. rewrite !app_assoc. reflexivity.
  - intros n e' Hn Hcalm Hf.
    unfold run_session, try_finally, try_except. rewrite Hloop, handler_runs.
    assert (Hcalm' : calm w (tick (extend s1 0 (handler_events e))) n) by exact Hcalm.
    assert (Hf' : fault w (n + tick (extend s1 0 (handler_events e))) = Some e')
      by exact Hf.
    rewrite (teardown_fails_at w port is_led _ n e' Hn Hcalm' Hf'), extend_extend.
    rewrite Nat.add_0_r.
    destruct e; reflexivity.
Qed.

Lemma teardown_after_loop_exception_witness :
  fst (session_loop bus_error_world 3 (Some "r") state0)
  = Exc (Exception "device disconnected")
  /\ calm bus_error_world
          (tick (snd (session_loop bus_error_world 3 (Some "r") state0)))
          (teardown_count (FlagStr "on"))
  /\ fst (run_session bus_error_world 3 (Some "r") (SerialOn "/dev/ttyACM0")
            (FlagStr "on") state0) = Val tt
  /\ (3 < teardown_count (FlagStr "off"))%nat
  /\ calm shutdown_error_world
          (tick (snd (session_loop shutdown_error_world 3 (Some "r") state0))) 3
  /\ fault shutdown_error_world
           (3 + tick (snd (session_loop shutdown_error_world 3 (Some "r") state0)))
     = Some (Exception "shutdown failed")
  /\ run_session shutdown_error_world 3 (Some "r") (SerialOn "/dev/ttyACM0")
       (FlagStr "off") state0
     = (Exc (Exception "shutdown failed"),
        mkState 6 counter0
          [ Call BusRecv (Frame (foreign_frame 0));
            Output (Received (foreign_frame 0));
            Call BusRecv (Raised (Exception "device disconnected"));
            Output (Text ("An error occurred: " ++ "device disconnected"));
            Call (Sleep 1000) Done;
            Call PortResetInput Done;
            Call PortResetOutput Done;
            Call BusShutdown (Raised (Exception "shutdown failed")) ]).
Proof.
  assert (Hcalm : calm bus_error_world
          (tick (snd (session_loop bus_error_world 3 (Some "r") state0)))
          (teardown_count (FlagStr "on"))).
  { intros k Hk. cbn in Hk. unfold bus_error_world, world_with. cbn.
    destruct k as [| [| k]]; [lia | lia | reflexivity]. }
  assert (Hn : (3 < teardown_count (FlagStr "off"))%nat) by (cbn; lia).
  assert (Hcalm2 : calm shutdown_error_world
          (tick (snd (session_loop shutdown_error_world 3 (Some "r") state0))) 3).
  { intros k Hk. cbn in Hk. unfold shutdown_error_world, world_with. cbn.
    destruct k as [| [| [| [| [| k]]]]]; try lia; reflexivity. }
  split; [reflexivity |]. split; [exact Hcalm |].
  destruct (teardown_after_loop_exception bus_error_world 3 (Some "r")
              (SerialOn "/dev/ttyACM0") (FlagStr "on") state0
              (snd (session_loop bus_error_world 3 (Some "r") state0))
              (Exception "device disconnected") eq_refl) as [A _].
  destruct (A Hcalm) as [E _].
  split; [rewrite E; reflexivity |].
  split; [exact Hn |]. split; [exact Hcalm2 |]. split; [reflexivity |].
  destruct (teardown_after_loop_exception shutdown_error_world 3 (Some "r")
              (SerialOn "/dev/ttyACM0") (FlagStr "off") state0
              (snd (session_loop shutdown_error_world 3 (Some "r") state0))
              (Exception "device disconnected") eq_refl) as [_ B].
  rewrite (B 3%nat (Exception "shutdown failed") Hn Hcalm2 eq_refl).
  reflexivity.
Defined.

(** ** Which devices [main] opens *)

Lemma triple_value_post {A} (P I : State -> Prop) (m : M A)
  (Q : A -> State -> Prop) :
  (forall s, P s -> I s) ->
  preserves I m ->
  (forall s a s1, P s -> m s = (Val a, s1) -> Q a s1) ->
  triple P m (fun a s1 => I s1 /\ Q a s1) I.
Proof.
  intros HP H HQ s Hs. specialize (H s (HP s Hs)). specialize (HQ s).
  destruct (m s) as [[a | e |] s1]; cbn in H; try exact H.
  split; [exact H | now apply (HQ a s1)].
Qed.

Lemma triple_from {A} (P I : State -> Prop) (m : M A)
  (Q : A -> State -> Prop) (X : State -> Prop) :
  (forall s, P s -> I s) ->
  preserves I m ->
  (forall a s, I s -> Q a s) ->
  (forall s, I s -> X s) ->
  triple P m Q X.
Proof.
  intros HP H HQ HX s Hs. specialize (H s (HP s Hs)).
  destruct (m s) as [[a | e |] s1]; auto.
Qed.

Lemma triple_extract {A} (F : Prop) (P : State -> Prop) (m : M A)
  (Q : A -> State -> Prop) (X : State -> Prop) :
  (forall s, P s -> F) -> (F -> triple P m Q X) -> triple P m Q X.
Proof. intros HF H s Hs. exact (H (HF s Hs) s Hs). Qed.

Lemma lookup_found_grows (w : World) (k : nat) (loc path : string)
  (tr more : list Event) :
  lookup_found w k loc path tr -> lookup_found w k loc path (tr ++ more).
Proof.
  intros [Hin Hex]. split; [| exact Hex]. apply in_or_app. now left.
Qed.

Lemma opens_what_was_found_grows (w : World) (tr more : list Event) (ev : Event) :
  opens_what_was_found w tr ev -> opens_what_was_found w (tr ++ more) ev.
Proof.
  destruct ev as [[] a | p]; cbn; auto; apply lookup_found_grows.
Qed.

Lemma opened_as_found_snoc (w : World) (cs : list Event) (tr : list Event)
  (ev : Event) :
  opened_as_found w cs tr ->
  opens_what_was_found w (tr ++ [ev]) ev ->
  opened_as_found w cs (tr ++ [ev]).
Proof.
  intros [Hev Hcs] Hnew. split.
  - intros x Hx. apply in_app_or in Hx. destruct Hx as [Hx | [<- | []]].
    + apply opens_what_was_found_grows. now apply Hev.
    + exact Hnew.
  - intros c Hc. apply in_or_app. left. now apply Hcs.
Qed.

Lemma opened_as_found_closed (w : World) (cs : list Event) :
  closed_under not_opening (opened_as_found w cs).
Proof.
  intros tr ev Hev H. apply opened_as_found_snoc; [exact H |].
  destruct ev as [[] a | p]; cbn in *; auto; contradiction.
Qed.

Lemma opened_as_found_fewer (w : World) (cs cs' : list Event) (tr : list Event) :
  (forall c, In c cs' -> In c cs) ->
  opened_as_found w cs tr -> opened_as_found w cs' tr.
Proof. intros Hsub [Hev Hcs]. split; [exact Hev | auto]. Qed.

Lemma get_device_port_returns (w : World) (dev_id loc : string) (s s1 : State)
  (r : option string) :
  loc <> EmptyString ->
  get_device_port w dev_id (Some loc) s = (Val r, s1) ->
  tick s1 = S (tick s)
  /\ In (Call Comports (Ports (attached w (tick s)))) (trace s1)
  /\ forall path, r = Some path ->
       exists (port : ListPortInfo) (ploc : string),
         find (stops_scan dev_id loc) (sorted (port_lt w) (attached w (tick s)))
         = Some port
         /\ device port = path /\ location port = Some ploc.
Proof.
  intros Hloc.
  assert (Htr : truthy loc = true) by (destruct loc; [contradiction | reflexivity]).
  unfold get_device_port, comports, bind, call.
  destruct (fault w (tick s)) as [e |]; [discriminate |].
  rewrite (scan_ports_stops _ _ _ _ Htr).
  destruct (find (stops_scan dev_id loc) (sorted (port_lt w) (attached w (tick s))))
    as [p |] eqn:Efind.
  - destruct (location p) as [ploc |] eqn:Eloc; [| discriminate].
    intros E. inversion E; subst. cbn [tick extend advance record trace].
    split; [reflexivity |]. split.
    + apply in_or_app. left. apply in_or_app. right. now left.
    + intros path Hp. inversion Hp; subst. now exists p, ploc.
  - intros E. inversion E; subst. cbn [tick advance record trace].
    split; [reflexivity |]. split.
    + apply in_or_app. right. now left.
    + intros path Hp. discriminate Hp.
Qed.

Lemma main_opens_as_found (w : World) (fuel : nat) (mode : option string)
  (bit_rate : Z) (is_led : string) :
  triple (fun s => on_trace (opened_as_found w []) s /\ tick s = 0%nat)
         (main w fuel mode bit_rate is_led)
         (fun _ => on_trace (opened_as_found w []))
         (on_trace (opened_as_found w [])).
Proof.
  set (C0 := Call Comports (Ports (attached w 0))).
  set (C1 := Call Comports (Ports (attached w 1))).
  pose proof (opened_as_found_closed w []) as HT.
  pose proof (opened_as_found_closed w [C0]) as HT0.
  pose proof (opened_as_found_closed w [C0; C1]) as HT01.
  pose proof (opened_as_found_closed w [C1]) as HT1.
  assert (HK : forall ev, not_opening ev -> not_opening ev) by auto.
  assert (HKloc : forall ev, locator_event ev -> not_opening ev).
  { intros [[] a | []]; cbn; tauto. }
  assert (Wk : forall cs s, on_trace (opened_as_found w cs) s
                            -> on_trace (opened_as_found w []) s).
  { intros cs s. apply opened_as_found_fewer. intros c []. }
  assert (Hdot0 : ".0" <> EmptyString) by discriminate.
  assert (Hdot2 : ".2" <> EmptyString) by discriminate.
  unfold main.
  destruct (negb (in_list bit_rate valid_bit_rates)).
  { apply triple_from with (I := on_trace (opened_as_found w []));
      [tauto | repeat closed_step HT HK | auto | auto]. }
  apply triple_bind
    with (Q := fun r s =>
                 on_trace (opened_as_found w []) s
                 /\ (tick s = 1%nat /\ In C0 (trace s)
                     /\ forall path, r = Some path ->
                          exists (port : ListPortInfo) (ploc : string),
                            find (stops_scan MCU_VID_PID ".0")
                                 (sorted (port_lt w) (attached w 0)) = Some port
                            /\ device port = path /\ location port = Some ploc)).
  { apply triple_value_post with (P := fun s => on_trace (opened_as_found w []) s
                                               /\ tick s = 0%nat).
    - tauto.
    - now apply (closed_get_device_port _ _ _ HT).
    - intros s r s1 [_ Ht] E.
      destruct (get_device_port_returns w MCU_VID_PID ".0" s s1 r Hdot0 E)
        as (Ht1 & Hin & Hr).
      rewrite Ht in *. auto. }
  intros mgmt_port.
  apply triple_extract
    with (F := forall path, mgmt_port = Some path ->
                 exists (port : ListPortInfo) (ploc : string),
                   find (stops_scan MCU_VID_PID ".0")
                        (sorted (port_lt w) (attached w 0)) = Some port
                   /\ device port = path /\ location port = Some ploc);
    [tauto | intros F0].
  apply triple_bind
    with (Q := fun r s =>
                 on_trace (opened_as_found w [C0]) s
                 /\ (In C1 (trace s)
                     /\ forall path, r = Some path ->
                          exists (port : ListPortInfo) (ploc : string),
                            find (stops_scan MCU_VID_PID ".2")
                                 (sorted (port_lt w) (attached w 1)) = Some port
                            /\ device port = path /\ location port = Some ploc)).
  { eapply triple_weaken.
    - apply triple_value_post
        with (P := fun s => on_trace (opened_as_found w []) s
                            /\ (tick s = 1%nat /\ In C0 (trace s)
                                /\ forall path, mgmt_port = Some path ->
                                     exists (port : ListPortInfo) (ploc : string),
                                       find (stops_scan MCU_VID_PID ".0")
                                            (sorted (port_lt w) (attached w 0)) = Some port
                                       /\ device port = path /\ location port = Some ploc))
             (I := on_trace (opened_as_found w [C0]))
             (Q := fun r s1 =>
                     In C1 (trace s1)
                     /\ forall path, r = Some path ->
                          exists (port : ListPortInfo) (ploc : string),
                            find (stops_scan MCU_VID_PID ".2")
                                 (sorted (port_lt w) (attached w 1)) = Some port
                            /\ device port = path /\ location port = Some ploc).
      + intros s ([Hev _] & _ & HC0 & _). split; [exact Hev |].
        intros c [<- | []]. exact HC0.
      + now apply (closed_get_device_port _ _ _ HT0).
      + intros s r s1 (_ & Ht & _) E.
        destruct (get_device_port_returns w MCU_VID_PID ".2" s s1 r Hdot2 E)
          as (Ht1 & Hin & Hr).
        rewrite Ht in *. auto.
    - auto.
    - auto.
    - intros s. apply Wk. }
  intros vcan_port.
  apply triple_extract
    with (F := forall path, vcan_port = Some path ->
                 exists (port : ListPortInfo) (ploc : string),
                   find (stops_scan MCU_VID_PID ".2")
                        (sorted (port_lt w) (attached w 1)) = Some port
                   /\ device port = path /\ location port = Some ploc);
    [tauto | intros F2].
  assert (H01 : forall s, on_trace (opened_as_found w [C0]) s
                          /\ (In C1 (trace s)
                              /\ forall path, vcan_port = Some path ->
                                   exists (port : ListPortInfo) (ploc : string),
                                     find (stops_scan MCU_VID_PID ".2")
                                          (sorted (port_lt w) (attached w 1)) = Some port
                                     /\ device port = path /\ location port = Some ploc)
                          -> on_trace (opened_as_found w [C0; C1]) s).
  { intros s ([Hev HC0] & HC1 & _). split; [exact Hev |].
    intros c [<- | [<- | []]]; [apply HC0; now left | exact HC1]. }
  destruct mgmt_port as [mgmt |];
    [| apply triple_from with (I := on_trace (opened_as_found w [C0; C1]));
       [exact H01 | repeat closed_step HT01 HK | intros ?; apply Wk | apply Wk]].
  destruct vcan_port as [vcan |];
    [| apply triple_from with (I := on_trace (opened_as_found w [C0; C1]));
       [exact H01 | repeat closed_step HT01 HK | intros ?; apply Wk | apply Wk]].
  destruct (negb (truthy mgmt) || negb (truthy vcan));
    [apply triple_from with (I := on_trace (opened_as_found w [C0; C1]));
       [exact H01 | repeat closed_step HT01 HK | intros ?; apply Wk | apply Wk] |].
  destruct (F0 mgmt eq_refl) as (p0 & ploc0 & Hfind0 & Hdev0 & Hloc0).
  destruct (F2 vcan eq_refl) as (p2 & ploc2 & Hfind2 & Hdev2 & Hloc2).
  apply triple_bind with (Q := fun _ => on_trace (opened_as_found w [C1])).
  { eapply triple_weaken with (P := on_trace (opened_as_found w [C0; C1]));
      [| exact H01 | intros a s H; exact H | intros s H; exact H].
    apply triple_call.
    - intros s e [Hev Hcs]. apply (Wk [C0; C1]).
      apply opened_as_found_snoc; [split; assumption |].
      split; [apply in_or_app; left; apply Hcs; now left | now exists p0, ploc0].
    - intros s [Hev Hcs].
      apply (opened_as_found_fewer w [C0; C1]);
        [intros c [<- | []]; right; now left |].
      apply opened_as_found_snoc; [split; assumption |].
      split; [apply in_or_app; left; apply Hcs; now left | now exists p0, ploc0]. }
  intros port.
  unfold port_write, time_sleep, port_inWaiting, port_read, procedure.
  do 5 (apply triple_bind with (Q := fun _ => on_trace (opened_as_found w [C1]));
        [ apply triple_of_preserves_weak; [closed_step HT1 HK | auto | apply Wk]
        | intros ? ]).
  apply triple_bind with (Q := fun _ => on_trace (opened_as_found w [C1])).
  { apply triple_of_preserves_weak; [| auto | apply Wk].
    apply (closed_configure_can _ _ _ HT1). intros [[] ans | []]; cbn; tauto. }
  intros ?.
  apply triple_bind with (Q := fun _ => on_trace (opened_as_found w [C1])).
  { apply triple_of_preserves_weak; [| auto | apply Wk].
    apply (closed_set_led_status _ _ _ HT1). intros _ [[] ans | []]; cbn; tauto. }
  intros ?.
  apply triple_bind with (Q := fun _ => on_trace (opened_as_found w [])).
  { apply triple_call.
    - intros s e [Hev Hcs]. apply (Wk [C1]).
      apply opened_as_found_snoc; [split; assumption |].
      split; [apply in_or_app; left; apply Hcs; now left | now exists p2, ploc2].
    - intros s [Hev Hcs]. apply (Wk [C1]).
      apply opened_as_found_snoc; [split; assumption |].
      split; [apply in_or_app; left; apply Hcs; now left | now exists p2, ploc2]. }
  intros bus.
  apply triple_of_preserves.
  do 2 (apply preserves_bind; [closed_step HT HK | intros ?]).
  apply (closed_run_session _ _ _ HT).
  intros ev [Hev | [Hev | Hev]]; destruct ev as [[] ans | []]; cbn in *; tauto.
Qed.

Lemma lookup_found_spelled (w : World) (k : nat) (loc path : string)
  (tr : list Event) :
  lookup_found w k loc path tr ->
  In (Call Comports (Ports (attached w k))) tr
  /\ exists (port : ListPortInfo) (ploc : string),
       find (stops_scan "353F:A101" loc) (sorted (port_lt w) (attached w k)) = Some port
       /\ device port = path /\ location port = Some ploc
       /\ In port (attached w k)
       /\ contains "353F:A101" (hwid port) = true
       /\ contains loc ploc = true.
Proof.
  intros [Hin (port & ploc & Hfind & Hdev & Hloc)]. split; [exact Hin |].
  exists port, ploc. repeat split; try assumption.
  - apply find_some in Hfind. destruct Hfind as [Hp _]. now apply In_sorted in Hp.
  - apply find_some in Hfind. destruct Hfind as [_ Hs].
    unfold stops_scan in Hs. apply andb_prop in Hs. exact (proj1 Hs).
  - apply find_some in Hfind. destruct Hfind as [_ Hs].
    unfold stops_scan in Hs. apply andb_prop in Hs. destruct Hs as [_ Hs].
    now rewrite Hloc in Hs.
Qed.

(** X19: [main] opens what its two lookups found.  Whenever it calls
    [serial.Serial(path)], the enumeration it made as its first call is
    on record and [path] is the device path of the first port of that
    enumeration, in sorted order, whose hardware id contains
    [353F:A101] and whose location contains [.0] or is missing; that
    port has a location, so it contains [.0].  Whenever it calls
    [can.Bus] on a channel, the same holds of the channel for the
    enumeration made as its second call and the filter [.2]. *)
Theorem main_opens_what_its_lookups_found (w : World) (fuel : nat)
  (mode : option string) (bit_rate : Z) (is_led : string) (ev : Event) :
  In ev (trace (snd (main w fuel mode bit_rate is_led state0))) ->
  match ev with
  | Call (SerialOpen path) _ =>
      In (Call Comports (Ports (attached w 0)))
         (trace (snd (main w fuel mode bit_rate is_led state0)))
      /\ exists (port : ListPortInfo) (ploc : string),
           find (stops_scan "353F:A101" ".0") (sorted (port_lt w) (attached w 0))
           = Some port
           /\ device port = path /\ location port = Some ploc
           /\ In port (attached w 0)
           /\ contains "353F:A101" (hwid port) = true
           /\ contains ".0" ploc = true
  | Call (BusOpen _ channel _ _) _ =>
      In (Call Comports (Ports (attached w 1)))
         (trace (snd (main w fuel mode bit_rate is_led state0)))
      /\ exists (port : ListPortInfo) (ploc : string),
           find (stops_scan "353F:A101" ".2") (sorted (port_lt w) (attached w 1))
           = Some port
           /\ device port = channel /\ location port = Some ploc
           /\ In port (attached w 1)
           /\ contains "353F:A101" (hwid port) = true
           /\ contains ".2" ploc = true
  | _ => True
  end.
Proof.
  intros Hin.
  assert (H0 : on_trace (opened_as_found w []) state0 /\ tick state0 = 0%nat).
  { split; [| reflexivity]. split; intros x []. }
  pose proof (main_opens_as_found w fuel mode bit_rate is_led state0 H0) as H.
  assert (HF : opened_as_found w []
                 (trace (snd (main w fuel mode bit_rate is_led state0)))).
  { destruct (main w fuel mode bit_rate is_led state0) as [[u | e |] s1]; exact H. }
  destruct HF as [HF _]. specialize (HF ev Hin).
  destruct ev as [[] ans | []]; cbn in HF; try exact Logic.I;
    exact (lookup_found_spelled _ _ _ _ _ HF).
Qed.

Lemma main_opens_what_its_lookups_found_witness :
  In (Call (BusOpen "slcan" "/dev/ttyACM2" 250000 false) Done)
     (trace (snd (main quiet_world 1 (Some "r") 250 "off" state0)))
  /\ exists (port : ListPortInfo) (ploc : string),
       find (stops_scan "353F:A101" ".2")
            (sorted (port_lt quiet_world) (attached quiet_world 1))
       = Some port
       /\ device port = "/dev/ttyACM2" /\ location port = Some ploc
       /\ In port (attached quiet_world 1)
       /\ contains "353F:A101" (hwid port) = true
       /\ contains ".2" ploc = true.
Proof.
  assert (Hin : In (Call (BusOpen "slcan" "/dev/ttyACM2" 250000 false) Done)
                   (trace (snd (main quiet_world 1 (Some "r") 250 "off" state0)))).
  { vm_compute. repeat (first [left; reflexivity | right]). }
  split; [exact Hin |].
  apply (main_opens_what_its_lookups_found quiet_world 1 (Some "r") 250 "off"
           (Call (BusOpen "slcan" "/dev/ttyACM2" 250000 false) Done) Hin).
Defined.
